(** * Reconciliation core of the ResourceGroup controller

    A shallow embedding of

    - [internal/controller/resourcegroup_status.go]: [handleReconcileError]
      and [setResourceGroupStatus];
    - the parser package: [ParseResource], [parseResource] and
      [getFieldSchema].

    Go values are modelled as they are written: an [error] is a chain of
    dynamically typed nodes inspected with [errors.As]; a [*spec.Schema] is a
    mutable tree whose state after a call is returned next to the call's
    result; a [map] that is ranged over is the list of its entries in the
    order of that run. *)

From Stdlib Require Import String List ZArith Bool Lia Ascii DecimalString.
Import ListNotations.
Open Scope string_scope.

Set Warnings "-register-all".

(* ================================================================== *)
(** ** Go error values *)
(* ================================================================== *)

Module Errors.

(** The static types a target of [errors.As] can have in this repository:
    the four phase errors of package [serr], the three markers of package
    [requeue]. *)
Inductive GoType : Type :=
| ProcessCRDError
| ReconcileGraphError
| ReconcileCRDError
| ReconcileMicroControllerError
| RequeueNeededAfter
| RequeueNeeded
| NoRequeue.

Definition GoType_eqb (a b : GoType) : bool :=
  match a, b with
  | ProcessCRDError, ProcessCRDError
  | ReconcileGraphError, ReconcileGraphError
  | ReconcileCRDError, ReconcileCRDError
  | ReconcileMicroControllerError, ReconcileMicroControllerError
  | RequeueNeededAfter, RequeueNeededAfter
  | RequeueNeeded, RequeueNeeded
  | NoRequeue, NoRequeue => true
  | _, _ => false
  end.

(** The dynamic type of one node of an error chain: a pointer to one of
    the seven types above, or any other type ([Opaque]).  A
    [*requeue.RequeueNeededAfter] carries its duration (a [time.Duration],
    in nanoseconds). *)
Inductive Dyn : Type :=
| ptrProcessCRDError
| ptrReconcileGraphError
| ptrReconcileCRDError
| ptrReconcileMicroControllerError
| ptrRequeueNeededAfter (duration : Z)
| ptrRequeueNeeded
| ptrNoRequeue
| Opaque.

Definition typeOf (d : Dyn) : option GoType :=
  match d with
  | ptrProcessCRDError => Some ProcessCRDError
  | ptrReconcileGraphError => Some ReconcileGraphError
  | ptrReconcileCRDError => Some ReconcileCRDError
  | ptrReconcileMicroControllerError => Some ReconcileMicroControllerError
  | ptrRequeueNeededAfter _ => Some RequeueNeededAfter
  | ptrRequeueNeeded => Some RequeueNeeded
  | ptrNoRequeue => Some NoRequeue
  | Opaque => None
  end.

(** A non-nil [error]: a node with its dynamic type and the text its
    [Error()] method returns, alone or wrapping a cause ([Unwrap()]). *)
Inductive error : Type :=
| errorNew (dyn : Dyn) (text : string)
| errorWrap (dyn : Dyn) (text : string) (cause : error).

Definition dynOf (e : error) : Dyn :=
  match e with errorNew d _ | errorWrap d _ _ => d end.

(** [err.Error()] *)
Definition Error (e : error) : string :=
  match e with errorNew _ t | errorWrap _ t _ => t end.

(** [err.Unwrap()] *)
Definition Unwrap (e : error) : option error :=
  match e with errorNew _ _ => None | errorWrap _ _ c => Some c end.

(** [Duration()] of a [*requeue.RequeueNeededAfter]. *)
Definition Duration (e : error) : Z :=
  match dynOf e with ptrRequeueNeededAfter d => d | _ => 0%Z end.

Definition assignable (e : error) (target : GoType) : bool :=
  match typeOf (dynOf e) with
  | Some t => GoType_eqb t target
  | None => false
  end.

(** [errors.As] on a non-nil error: the first node of the chain that is
    assignable to the target's type. *)
Fixpoint As_chain (e : error) (target : GoType) : option error :=
  if assignable e target then Some e
  else match e with
       | errorNew _ _ => None
       | errorWrap _ _ c => As_chain c target
       end.

(** [errors.As(err, &target)]: [None] is Go's [false] (always so for a nil
    [err]); [Some n] is [true] with [target] set to the node [n]. *)
Definition As (err : option error) (target : GoType) : option error :=
  match err with
  | None => None
  | Some e => As_chain e target
  end.

(** The nodes of a chain, outermost first. *)
Fixpoint chain (e : error) : list error :=
  match e with
  | errorNew _ _ => [e]
  | errorWrap _ _ c => e :: chain c
  end.

End Errors.

(* ================================================================== *)
(** ** Conditions *)
(* ================================================================== *)

Module Condition.

Inductive ConditionType : Type :=
| ReconcilerReady
| GraphVerified
| CustomResourceDefinitionSynced.

Definition ConditionType_eqb (a b : ConditionType) : bool :=
  match a, b with
  | ReconcilerReady, ReconcilerReady
  | GraphVerified, GraphVerified
  | CustomResourceDefinitionSynced, CustomResourceDefinitionSynced => true
  | _, _ => false
  end.

(** [corev1.ConditionStatus] *)
Inductive ConditionStatus : Type :=
| ConditionTrue
| ConditionFalse
| ConditionUnknown.

(** A condition without its [LastTransitionTime], which is the wall clock
    at construction. *)
Record Condition : Type := mkCondition {
  Type_ : ConditionType;
  Status : ConditionStatus;
  Reason : string;
  Message : string }.

(** Modelled from the spec: package [condition] is not among the sources.
    The three constructors build a condition of their type from
    [(status, reason, message)], the order in which the call sites pass
    the local variable [reason]. *)
Definition NewCondition (t : ConditionType) (status : ConditionStatus)
           (reason message : string) : Condition :=
  mkCondition t status reason message.

Definition NewReconcilerReadyCondition := NewCondition ReconcilerReady.
Definition NewGraphVerifiedCondition := NewCondition GraphVerified.
Definition NewCustomResourceDefinitionSyncedCondition :=
  NewCondition CustomResourceDefinitionSynced.

(** Modelled from the spec: [condition.SetCondition] is not among the
    sources.  "Update is an upsert keyed by Type, leaving other types
    untouched": the first condition of the same type is replaced, and
    the condition is appended when there is none. *)
Fixpoint SetCondition (conditions : list Condition) (c : Condition)
  : list Condition :=
  match conditions with
  | [] => [c]
  | c0 :: rest =>
      if ConditionType_eqb (Type_ c0) (Type_ c) then c :: rest
      else c0 :: SetCondition rest c
  end.

(** The condition of type [t] a reader of the status finds. *)
Definition GetCondition (conditions : list Condition) (t : ConditionType)
  : option Condition :=
  find (fun c => ConditionType_eqb (Type_ c) t) conditions.

End Condition.

(* ================================================================== *)
(** ** [internal/controller/resourcegroup_status.go] *)
(* ================================================================== *)

Module Controller.
Import Errors Condition.

(** [time.Duration] *)
Definition GoDuration := Z.

(** [ctrl.Result] *)
Record Result : Type := mkResult {
  Requeue : bool;
  RequeueAfter : GoDuration }.

(** [ctrl.Result{}] *)
Definition emptyResult : Result := mkResult false 0%Z.

(** [handleReconcileError]; logging left out. *)
Definition handleReconcileError (err : option error)
  : Result * option error :=
  match As err RequeueNeededAfter with
  | Some requeueNeededAfter =>
      let after := Duration requeueNeededAfter in
      (mkResult false after, None)
  | None =>
      match As err RequeueNeeded with
      | Some _ => (mkResult true 0%Z, None)
      | None =>
          match As err NoRequeue with
          | Some _ => (emptyResult, None)
          | None => (emptyResult, err)
          end
      end
  end.

(** [v1alpha1.ResourceGroupStatus]; the field keeps the source's
    spelling. *)
Record ResourceGroupStatus : Type := mkStatus {
  State : string;
  Conditions : list Condition;
  TopoligicalOrder : list string }.

Definition setConditions (st : ResourceGroupStatus) (cs : list Condition)
  : ResourceGroupStatus :=
  mkStatus (State st) cs (TopoligicalOrder st).

(** [dc.Status.Conditions = condition.SetCondition(dc.Status.Conditions, c)] *)
Definition upsert (c : Condition) (st : ResourceGroupStatus)
  : ResourceGroupStatus :=
  setConditions st (SetCondition (Conditions st) c).

Definition setState (s : string) (st : ResourceGroupStatus)
  : ResourceGroupStatus :=
  mkStatus s (Conditions st) (TopoligicalOrder st).

Definition setTopoligicalOrder (o : list string) (st : ResourceGroupStatus)
  : ResourceGroupStatus :=
  mkStatus (State st) (Conditions st) o.

(** One [if errors.As(reconcileErr, &target) { ... }] block. *)
Definition ifAs (err : error) (target : GoType)
           (body : ResourceGroupStatus -> ResourceGroupStatus)
           (st : ResourceGroupStatus) : ResourceGroupStatus :=
  match As (Some err) target with
  | Some _ => body st
  | None => st
  end.

Definition msgReady := "micro controller is ready".
Definition msgGraph := "Directed Acyclic Graph is synced".
Definition msgCRD := "Custom Resource Definition is synced".

Definition onProcessCRDError (reconcileErr : error)
           (st : ResourceGroupStatus) : ResourceGroupStatus :=
  let st := upsert (NewGraphVerifiedCondition ConditionUnknown
                      ("error parsing schema: " ++ Error reconcileErr)
                      msgGraph) st in
  let st := upsert (NewCustomResourceDefinitionSyncedCondition ConditionFalse
                      ("error parsing schema: " ++ Error reconcileErr)
                      msgCRD) st in
  let reason := "Faulty Graph" in
  upsert (NewReconcilerReadyCondition ConditionUnknown reason msgReady) st.

Definition onReconcileGraphError (reconcileErr : error)
           (st : ResourceGroupStatus) : ResourceGroupStatus :=
  let st := upsert (NewGraphVerifiedCondition ConditionFalse
                      (Error reconcileErr) msgGraph) st in
  let reason := "Faulty Graph" in
  let st := upsert (NewReconcilerReadyCondition ConditionUnknown reason
                      msgReady) st in
  upsert (NewCustomResourceDefinitionSyncedCondition ConditionUnknown reason
            msgCRD) st.

Definition onReconcileCRDError (reconcileErr : error)
           (st : ResourceGroupStatus) : ResourceGroupStatus :=
  let st := upsert (NewGraphVerifiedCondition ConditionTrue EmptyString
                      msgGraph) st in
  let st := upsert (NewCustomResourceDefinitionSyncedCondition ConditionFalse
                      (Error reconcileErr) msgCRD) st in
  let reason := "CRD not-synced" in
  upsert (NewReconcilerReadyCondition ConditionUnknown reason msgReady) st.

Definition onReconcileMicroControllerError (reconcileErr : error)
           (st : ResourceGroupStatus) : ResourceGroupStatus :=
  let st := upsert (NewGraphVerifiedCondition ConditionTrue EmptyString
                      msgGraph) st in
  let st := upsert (NewCustomResourceDefinitionSyncedCondition ConditionTrue
                      EmptyString msgCRD) st in
  upsert (NewReconcilerReadyCondition ConditionFalse (Error reconcileErr)
            msgReady) st.

(** [setResourceGroupStatus]: the status [dc.Status] that is handed to
    [r.Status().Patch], computed from the status of the resource group
    read ([prior], deep-copied by the source), the topological order and
    the reconcile error.  Logging and the patch itself are left out. *)
Definition setResourceGroupStatus (prior : ResourceGroupStatus)
           (topologicalOrder : list string) (reconcileErr : option error)
  : ResourceGroupStatus :=
  let dc := prior in
  let dc := upsert (NewReconcilerReadyCondition ConditionTrue EmptyString
                      msgReady) dc in
  let dc := upsert (NewGraphVerifiedCondition ConditionTrue EmptyString
                      msgGraph) dc in
  let dc := upsert (NewCustomResourceDefinitionSyncedCondition ConditionTrue
                      EmptyString msgCRD) dc in
  let dc := setState "ACTIVE" dc in
  let dc := setTopoligicalOrder topologicalOrder dc in
  match reconcileErr with
  | None => dc
  | Some e =>
      let dc := ifAs e ProcessCRDError (onProcessCRDError e) dc in
      let dc := ifAs e ReconcileGraphError (onReconcileGraphError e) dc in
      let dc := ifAs e ReconcileCRDError (onReconcileCRDError e) dc in
      let dc := ifAs e ReconcileMicroControllerError
                  (onReconcileMicroControllerError e) dc in
      setState "INACTIVE" dc
  end.

(** The four phase-error kinds, by the spec's names. *)
Inductive PhaseKind : Type :=
| SchemaError | GraphError | SyncError | ReadinessError.

Definition PhaseKind_eqb (a b : PhaseKind) : bool :=
  match a, b with
  | SchemaError, SchemaError | GraphError, GraphError
  | SyncError, SyncError | ReadinessError, ReadinessError => true
  | _, _ => false
  end.

Definition phaseKinds : list PhaseKind :=
  [SchemaError; GraphError; SyncError; ReadinessError].

Definition phaseType (k : PhaseKind) : GoType :=
  match k with
  | SchemaError => ProcessCRDError
  | GraphError => ReconcileGraphError
  | SyncError => ReconcileCRDError
  | ReadinessError => ReconcileMicroControllerError
  end.

(** [carries e target]: some node of the chain of [e] is assignable to
    [target]. *)
Definition carries (e : error) (target : GoType) : bool :=
  existsb (fun n => assignable n target) (chain e).

(** [marker e target]: the first node of the chain of [e] that is
    assignable to [target]. *)
Definition marker (e : error) (target : GoType) : option error :=
  find (fun n => assignable n target) (chain e).

(** [matches e k]: the chain of [e] holds a phase error of kind [k]. *)
Definition matches (e : error) (k : PhaseKind) : bool :=
  carries e (phaseType k).

(** [e] matches [k] and none of the other three kinds. *)
Definition matchesOnly (e : error) (k : PhaseKind) : bool :=
  forallb (fun k' => Bool.eqb (matches e k') (PhaseKind_eqb k' k))
          phaseKinds.

(** The kind whose block runs last on [e]: the blocks run in the order
    SchemaError, GraphError, SyncError, ReadinessError. *)
Definition lastKind (e : error) : option PhaseKind :=
  find (matches e) (rev phaseKinds).

(** [e] matches none of the four kinds. *)
Definition matchesNone (e : error) : bool :=
  forallb (fun k => negb (matches e k)) phaseKinds.

Definition statusOf (st : ResourceGroupStatus) (t : ConditionType)
  : option ConditionStatus :=
  option_map Status (GetCondition (Conditions st) t).

(** The Status columns of the table of section 4.4, row by row. *)
Definition expectedStatus (k : PhaseKind) (t : ConditionType)
  : ConditionStatus :=
  match k, t with
  | SchemaError, GraphVerified => ConditionUnknown
  | SchemaError, CustomResourceDefinitionSynced => ConditionFalse
  | SchemaError, ReconcilerReady => ConditionUnknown
  | GraphError, GraphVerified => ConditionFalse
  | GraphError, CustomResourceDefinitionSynced => ConditionUnknown
  | GraphError, ReconcilerReady => ConditionUnknown
  | SyncError, GraphVerified => ConditionTrue
  | SyncError, CustomResourceDefinitionSynced => ConditionFalse
  | SyncError, ReconcilerReady => ConditionUnknown
  | ReadinessError, GraphVerified => ConditionTrue
  | ReadinessError, CustomResourceDefinitionSynced => ConditionTrue
  | ReadinessError, ReconcilerReady => ConditionFalse
  end.

(** The message every condition of a type is written with. *)
Definition messageOf (t : ConditionType) : string :=
  match t with
  | ReconcilerReady => msgReady
  | GraphVerified => msgGraph
  | CustomResourceDefinitionSynced => msgCRD
  end.

(** The reason the error path writes, from the kind, the condition type
    and the text [errText] of the reconcile error. *)
Definition reasonOf (k : PhaseKind) (t : ConditionType) (errText : string)
  : string :=
  match k, t with
  | SchemaError, GraphVerified => "error parsing schema: " ++ errText
  | SchemaError, CustomResourceDefinitionSynced =>
      "error parsing schema: " ++ errText
  | SchemaError, ReconcilerReady => "Faulty Graph"
  | GraphError, GraphVerified => errText
  | GraphError, CustomResourceDefinitionSynced => "Faulty Graph"
  | GraphError, ReconcilerReady => "Faulty Graph"
  | SyncError, GraphVerified => EmptyString
  | SyncError, CustomResourceDefinitionSynced => errText
  | SyncError, ReconcilerReady => "CRD not-synced"
  | ReadinessError, GraphVerified => EmptyString
  | ReadinessError, CustomResourceDefinitionSynced => EmptyString
  | ReadinessError, ReconcilerReady => errText
  end.

(** The condition the error path leaves for kind [k] at type [t]. *)
Definition expectedCondition (k : PhaseKind) (t : ConditionType)
           (errText : string) : Condition :=
  mkCondition t (expectedStatus k t) (reasonOf k t errText) (messageOf t).

End Controller.

(* ================================================================== *)
(** ** The pieces of Go's [strings] and [strconv] the parser uses *)
(* ================================================================== *)

Module GoStrings.

(** Whether the byte [c] occurs in [cutset]. *)
Fixpoint IndexByte (cutset : string) (c : ascii) : bool :=
  match cutset with
  | EmptyString => false
  | String c0 rest => if Ascii.eqb c0 c then true else IndexByte rest c
  end.

(** [strings.TrimLeft], [strings.TrimRight] and [strings.Trim] for a
    cutset of ASCII characters, where Go trims byte by byte: every
    leading and every trailing byte that occurs in the cutset goes. *)
Fixpoint TrimLeft (s cutset : string) : string :=
  match s with
  | EmptyString => EmptyString
  | String c rest => if IndexByte cutset c then TrimLeft rest cutset else s
  end.

Fixpoint TrimRight (s cutset : string) : string :=
  match s with
  | EmptyString => EmptyString
  | String c rest =>
      match TrimRight rest cutset with
      | EmptyString => if IndexByte cutset c then EmptyString
                       else String c EmptyString
      | kept => String c kept
      end
  end.

Definition Trim (s cutset : string) : string :=
  TrimLeft (TrimRight s cutset) cutset.

(** The white space [strings.TrimSpace] removes from an ASCII string:
    tab, line feed, vertical tab, form feed, carriage return, space. *)
Definition asciiSpace : string :=
  String (ascii_of_nat 9) (String (ascii_of_nat 10)
    (String (ascii_of_nat 11) (String (ascii_of_nat 12)
      (String (ascii_of_nat 13) (String (ascii_of_nat 32) EmptyString))))).

Definition TrimSpace (s : string) : string := Trim s asciiSpace.

(** [%d] of a non-negative index. *)
Definition Itoa (i : nat) : string :=
  NilEmpty.string_of_uint (Nat.to_uint i).

End GoStrings.

(* ================================================================== *)
(** ** The parser package *)
(* ================================================================== *)

Module Parser.
Import GoStrings.

(** *** Data *)

(** [spec.Schema] of kube-openapi, with the fields the walk reads.
    [Items] and [AdditionalProperties] are pointers to a [SchemaOrArray]
    and a [SchemaOrBool], whose [Schema] fields are pointers again
    ([None] is nil); [Properties] is a [map[string]Schema] and [OneOf] a
    [[]Schema], both holding schema values.  A schema is a tree: no node
    is reachable along two paths. *)
Inductive Schema : Type := mkSchema {
  Type_ : list string;
  OneOf : list Schema;
  Properties : list (string * Schema);
  Items : option SchemaOrArray;
  AdditionalProperties : option SchemaOrBool }
with SchemaOrArray : Type := mkSchemaOrArray {
  ItemsSchema : option Schema }
with SchemaOrBool : Type := mkSchemaOrBool {
  Allows : bool;
  AllowsSchema : option Schema }.

(** [spec.Schema{}] *)
Definition emptySchema : Schema := mkSchema [] [] [] None None.

(** A resource document, an [interface{}], by its dynamic type.  The
    entries of a [VMap] are listed in the order in which this run of the
    program ranges over the map. *)
Inductive Value : Type :=
| VMap (entries : list (string * Value))
| VSlice (items : list Value)
| VString (s : string)
| VFloat64 (bits : Z)
| VInt (n : Z)
| VInt64 (n : Z)
| VInt32 (n : Z)
| VBool (b : bool)
| VNil
| VOther (goType : string).

(** Induction over documents, with the hypothesis on every entry of a
    map and every item of a slice. *)
Section ValueInduction.
Variable P : Value -> Prop.
Hypothesis onMap :
  forall entries, Forall (fun kv => P (snd kv)) entries -> P (VMap entries).
Hypothesis onSlice : forall items, Forall P items -> P (VSlice items).
Hypothesis onString : forall s, P (VString s).
Hypothesis onFloat64 : forall x, P (VFloat64 x).
Hypothesis onInt : forall n, P (VInt n).
Hypothesis onInt64 : forall n, P (VInt64 n).
Hypothesis onInt32 : forall n, P (VInt32 n).
Hypothesis onBool : forall b, P (VBool b).
Hypothesis onNil : P VNil.
Hypothesis onOther : forall t, P (VOther t).

Fixpoint Value_nested_ind (v : Value) : P v :=
  match v with
  | VMap entries =>
      onMap entries
        (list_ind (Forall (fun kv => P (snd kv)))
           (Forall_nil _)
           (fun kv rest IH =>
              Forall_cons kv (Value_nested_ind (snd kv)) IH)
           entries)
  | VSlice items =>
      onSlice items
        (list_ind (Forall P) (Forall_nil _)
           (fun item rest IH =>
              Forall_cons item (Value_nested_ind item) IH)
           items)
  | VString s => onString s
  | VFloat64 x => onFloat64 x
  | VInt n => onInt n
  | VInt64 n => onInt64 n
  | VInt32 n => onInt32 n
  | VBool b => onBool b
  | VNil => onNil
  | VOther t => onOther t
  end.
End ValueInduction.

(** [ExpectedSchema] holds the schema node as it stands when the field
    is emitted. *)
Record ExpressionField : Type := mkExpressionField {
  Path : string;
  Expressions : list string;
  ExpectedType : string;
  ExpectedSchema : option Schema;
  OneShotCEL : bool }.

(** The errors of the package, one constructor per [fmt.Errorf] of the
    source, with the path (and field) its text is built from. *)
Inductive ParseError : Type :=
| ErrSchemaNil (path : string)
| ErrNotSingleType (types : list string)
| ErrExpectedObject (path : string)
| ErrFieldSchema (path field : string)
| ErrExpectedArray (path : string)
| ErrInvalidArraySchema (path : string)
| ErrExpectedString (path : string)
| ErrExpectedNumber (path : string)
| ErrExpectedInteger (path : string)
| ErrExpectedBoolean (path : string)
| ErrUnexpectedType (path : string)
| ErrMalformedExpression (str : string).

(** What a call comes back with: a value and a nil error, an error, or
    a run-time panic (an index out of range). *)
Inductive Outcome (A : Type) : Type :=
| Ok (a : A)
| Err (e : ParseError)
| Panic.
Arguments Ok {A} a.
Arguments Err {A} e.
Arguments Panic {A}.

(** [l[0]] *)
Definition index0 {A : Type} (l : list A) : Outcome A :=
  match l with
  | x :: _ => Ok x
  | [] => Panic
  end.

(** *** The expression classifier *)

Module Classifier.

(** Modelled from the spec: the classifier of section 4.2 is not among
    the sources.  Where its scan stands: outside an expression, or inside
    one at a nesting depth with the body read so far. *)
Inductive ScanState : Type :=
| Outside
| Inside (depth : nat) (body : string).

Definition snoc (s : string) (c : ascii) : string :=
  s ++ String c EmptyString.

(** Modelled from the spec: "an explicit depth-counting state machine"
    over the opening delimiter [${] and the closing delimiter [}]; [None]
    when the string ends inside an expression. *)
Fixpoint scan (s : string) (st : ScanState) (found : list string)
  : option (list string) :=
  match s with
  | EmptyString =>
      match st with
      | Outside => Some found
      | Inside _ _ => None
      end
  | String c rest =>
      match st with
      | Outside =>
          if Ascii.eqb c "$" then
            match rest with
            | String c' rest' =>
                if Ascii.eqb c' "{"
                then scan rest' (Inside 1 EmptyString) found
                else scan rest Outside found
            | EmptyString => scan rest Outside found
            end
          else scan rest Outside found
      | Inside depth body =>
          if Ascii.eqb c "{" then
            scan rest (Inside (S depth) (snoc body c)) found
          else if Ascii.eqb c "}" then
            match depth with
            | S (S d) => scan rest (Inside (S d) (snoc body c)) found
            | _ => scan rest Outside (found ++ [body])%list
            end
          else scan rest (Inside depth (snoc body c)) found
      end
  end.

(** Modelled from the spec: [extractExpressions] is not among the
    sources.  "The ordered list of substrings enclosed by a fixed
    opening delimiter and its matching closing delimiter, tracking
    nesting depth"; "an opening delimiter with no matching close is a
    reported MalformedExpression error". *)
Definition extractExpressions (str : string) : Outcome (list string) :=
  match scan str Outside [] with
  | Some expressions => Ok expressions
  | None => Err (ErrMalformedExpression str)
  end.

(** Modelled from the spec: [isOneShotExpression] is not among the
    sources.  "Whether the entire trimmed string is exactly one such
    delimited span with nothing else around it." *)
Definition isOneShotExpression (str : string) : Outcome bool :=
  let trimmed := TrimSpace str in
  match extractExpressions trimmed with
  | Ok [expr] => Ok (String.eqb trimmed ("${" ++ expr ++ "}"))
  | Ok _ => Ok false
  | Err e => Err e
  | Panic => Panic
  end.

End Classifier.

(** *** Writes to a schema node and what they alias *)

(** [schema.Type = t] *)
Definition setType (s : Schema) (t : list string) : Schema :=
  mkSchema t (OneOf s) (Properties s) (Items s) (AdditionalProperties s).

Definition setProperties (s : Schema) (p : list (string * Schema))
  : Schema :=
  mkSchema (Type_ s) (OneOf s) p (Items s) (AdditionalProperties s).

(** The node [schema.Items.Schema] points to, replaced by its new
    state. *)
Definition setItemsSchema (s : Schema) (it : option Schema) : Schema :=
  mkSchema (Type_ s) (OneOf s) (Properties s)
           (match Items s with
            | Some _ => Some (mkSchemaOrArray it)
            | None => None
            end)
           (AdditionalProperties s).

(** The node [schema.AdditionalProperties.Schema] points to, replaced by
    its new state. *)
Definition setAdditionalSchema (s : Schema) (a : option Schema) : Schema :=
  mkSchema (Type_ s) (OneOf s) (Properties s) (Items s)
           (match AdditionalProperties s with
            | Some ap => Some (mkSchemaOrBool (Allows ap) a)
            | None => None
            end).

(** [m[field]] on a [map[string]Schema] *)
Fixpoint lookup (field : string) (m : list (string * Schema))
  : option Schema :=
  match m with
  | [] => None
  | (k, v) :: rest =>
      if String.eqb k field then Some v else lookup field rest
  end.

(** The map [m] with the value at the existing key [field] replaced. *)
Fixpoint store (field : string) (v : Schema) (m : list (string * Schema))
  : list (string * Schema) :=
  match m with
  | [] => []
  | (k, v0) :: rest =>
      if String.eqb k field then (k, v) :: rest
      else (k, v0) :: store field v rest
  end.

(** Where the pointer [getFieldSchema] returns points to: at a copy of
    the map value ([&fieldSchema], a local), at the node of
    [AdditionalProperties.Schema] itself, or at a new [spec.Schema{}]. *)
Inductive FieldRef : Type :=
| PropertyCopy
| AdditionalSchema
| FreshSchema.

(** [getFieldSchema]; [None] is its error "schema not found for field". *)
Definition getFieldSchema (schema : Schema) (field : string)
  : option (FieldRef * Schema) :=
  match lookup field (Properties schema) with
  | Some fieldSchema => Some (PropertyCopy, fieldSchema)
  | None =>
      match AdditionalProperties schema with
      | Some ap =>
          match AllowsSchema ap with
          | Some sch => Some (AdditionalSchema, sch)
          | None => if Allows ap then Some (FreshSchema, emptySchema)
                    else None
          end
      | None => None
      end
  end.

(** The parent after a walk of one of its fields left the pointee of
    [ref] in state [after].  A copied map value shares with the map all
    that lies behind its pointers and maps, and nothing of its own
    [Type] field: the map sees the walk's writes below the copy, not the
    one to the copy's [Type]. *)
Definition writeField (schema : Schema) (field : string) (ref : FieldRef)
           (before : Schema) (after : option Schema) : Schema :=
  match after with
  | None => schema
  | Some after =>
      match ref with
      | PropertyCopy =>
          setProperties schema
            (store field (setType after (Type_ before)) (Properties schema))
      | AdditionalSchema => setAdditionalSchema schema (Some after)
      | FreshSchema => schema
      end
  end.

(** Where [itemSchema] points to: at the node of [Items.Schema], or at a
    schema built on the spot around the parent's [Properties] map. *)
Inductive ItemRef : Type :=
| ItemsPointer
| Synthesized.

Definition writeItems (schema : Schema) (ref : ItemRef)
           (after : option Schema) : Schema :=
  match after with
  | None => schema
  | Some after =>
      match ref with
      | ItemsPointer => setItemsSchema schema (Some after)
      | Synthesized => setProperties schema (Properties after)
      end
  end.

(** *** The walk *)

(** The block that leaves [schema.Type] with one entry: the node after
    it, the error of a node with neither one type nor a [oneOf], or the
    panic of [schema.OneOf[0].Type[0]] on an alternative without type. *)
Definition resolveType (schema : Schema) : Outcome Schema :=
  if negb (Nat.eqb (length (Type_ schema)) 1) then
    if Nat.ltb 0 (length (OneOf schema)) then
      match index0 (OneOf schema) with
      | Ok first =>
          match index0 (Type_ first) with
          | Ok t => Ok (setType schema [t])
          | Err e => Err e
          | Panic => Panic
          end
      | Err e => Err e
      | Panic => Panic
      end
    else Err (ErrNotSingleType (Type_ schema))
  else Ok schema.

(** [schema.AdditionalProperties != nil &&
    schema.AdditionalProperties.Allows] *)
Definition allowsAdditional (schema : Schema) : bool :=
  match AdditionalProperties schema with
  | Some ap => Allows ap
  | None => false
  end.

(** [schema.Items.Schema] when
    [schema.Items != nil && schema.Items.Schema != nil] *)
Definition itemsSchema (schema : Schema) : option Schema :=
  match Items schema with
  | Some it => ItemsSchema it
  | None => None
  end.

(** A call of [parseResource]: its result, and the state in which it
    leaves the schema node it was given. *)
Definition Walk : Type :=
  Value -> option Schema -> string ->
  Outcome (list ExpressionField) * option Schema.

(** [for field, value := range field { ... }] of the map case. *)
Definition rangeFields (walk : Walk) (path : string) :=
  fix range (entries : list (string * Value)) (schema : Schema)
      (expressionsFields : list ExpressionField) {struct entries}
    : Outcome (list ExpressionField) * Schema :=
    match entries with
    | [] => (Ok expressionsFields, schema)
    | (field, value) :: rest =>
        match getFieldSchema schema field with
        | None =>
            (Err (ErrFieldSchema (path ++ "." ++ field) field), schema)
        | Some (ref, fieldSchema) =>
            let fieldPath := path ++ "." ++ field in
            let '(r, after) := walk value (Some fieldSchema) fieldPath in
            let schema := writeField schema field ref fieldSchema after in
            match r with
            | Ok fieldExpressions =>
                range rest schema
                      (expressionsFields ++ fieldExpressions)%list
            | Err e => (Err e, schema)
            | Panic => (Panic, schema)
            end
        end
    end.

(** [for i, item := range field { ... }] of the array case; every item
    is walked against the same node. *)
Definition rangeItems (walk : Walk) (path : string) :=
  fix range (items : list Value) (i : nat) (itemSchema : option Schema)
      (expressionsFields : list ExpressionField) {struct items}
    : Outcome (list ExpressionField) * option Schema :=
    match items with
    | [] => (Ok expressionsFields, itemSchema)
    | item :: rest =>
        let itemPath := path ++ "[" ++ Itoa i ++ "]" in
        let '(r, after) := walk item itemSchema itemPath in
        match r with
        | Ok itemExpressions =>
            range rest (S i) after
                  (expressionsFields ++ itemExpressions)%list
        | Err e => (Err e, after)
        | Panic => (Panic, after)
        end
    end.

Section Walker.
(** The two functions of the package that are not among the sources. *)
Variable isOneShotExpression : string -> Outcome bool.
Variable extractExpressions : string -> Outcome (list string).

(** [case string:] *)
Definition parseString (field : string) (schema : Schema)
           (expectedType path : string) : Outcome (list ExpressionField) :=
  match isOneShotExpression field with
  | Err e => Err e
  | Panic => Panic
  | Ok true =>
      Ok [mkExpressionField path [Trim field "${}"] expectedType
            (Some schema) true]
  | Ok false =>
      if negb (String.eqb expectedType "string")
         && negb (String.eqb expectedType "any")
      then Err (ErrExpectedString path)
      else
        match extractExpressions field with
        | Err e => Err e
        | Panic => Panic
        | Ok expressions =>
            if Nat.ltb 0 (length expressions)
            then Ok [mkExpressionField path expressions expectedType
                       None false]
            else Ok []
        end
  end.

(** [default:] *)
Definition parseScalar (field : Value) (expectedType path : string)
  : Outcome (list ExpressionField) :=
  if String.eqb expectedType "any" then Ok []
  else if String.eqb expectedType "number" then
    match field with
    | VFloat64 _ => Ok []
    | _ => Err (ErrExpectedNumber path)
    end
  else if String.eqb expectedType "integer" then
    match field with
    | VInt _ | VInt64 _ | VInt32 _ => Ok []
    | _ => Err (ErrExpectedInteger path)
    end
  else if String.eqb expectedType "boolean" then
    match field with
    | VBool _ => Ok []
    | _ => Err (ErrExpectedBoolean path)
    end
  else Err (ErrUnexpectedType path).

(** [parseResource].  The second component is the state of [*schema]
    when the call returns. *)
Fixpoint parseResource (resource : Value) (schema : option Schema)
         (path : string) {struct resource}
  : Outcome (list ExpressionField) * option Schema :=
  match schema with
  | None => (Err (ErrSchemaNil path), None)
  | Some schema =>
  match resolveType schema with
  | Err e => (Err e, Some schema)
  | Panic => (Panic, Some schema)
  | Ok schema =>
  match index0 (Type_ schema) with
  | Err e => (Err e, Some schema)
  | Panic => (Panic, Some schema)
  | Ok type0 =>
    let expectedType :=
      if String.eqb type0 EmptyString && allowsAdditional schema
      then "any" else type0 in
    match resource with
    | VMap field =>
        if negb (String.eqb expectedType "object")
           && negb (allowsAdditional schema)
        then (Err (ErrExpectedObject path), Some schema)
        else
          let '(r, schema) :=
            rangeFields parseResource path field schema [] in
          (r, Some schema)
    | VSlice field =>
        if negb (String.eqb expectedType "array")
        then (Err (ErrExpectedArray path), Some schema)
        else
          match itemsSchema schema with
          | Some itemSchema =>
              (* case 1 - schema defined in Items.Schema *)
              let '(r, after) :=
                rangeItems parseResource path field 0
                           (Some itemSchema) [] in
              (r, Some (writeItems schema ItemsPointer after))
          | None =>
              match itemsSchema schema with
              | Some declared =>
                  if Nat.ltb 0 (length (Properties declared)) then
                    (* Case 2: schema defined in Properties *)
                    let itemSchema :=
                      mkSchema ["object"] [] (Properties schema)
                               None None in
                    let '(r, after) :=
                      rangeItems parseResource path field 0
                                 (Some itemSchema) [] in
                    (r, Some (writeItems schema Synthesized after))
                  else (Err (ErrInvalidArraySchema path), Some schema)
              | None => (Err (ErrInvalidArraySchema path), Some schema)
              end
          end
    | VString field =>
        (parseString field schema expectedType path, Some schema)
    | _ => (parseScalar resource expectedType path, Some schema)
    end
  end end end.

(** [ParseResource] *)
Definition ParseResource (resource : list (string * Value))
           (resourceSchema : option Schema)
  : Outcome (list ExpressionField) * option Schema :=
  parseResource (VMap resource) resourceSchema EmptyString.

End Walker.

(** The invariant of an expression field (section 3 of the spec). *)
Definition fieldInvariant (f : ExpressionField) : Prop :=
  (OneShotCEL f = true -> length (Expressions f) = 1) /\
  (OneShotCEL f = false -> 1 <= length (Expressions f)).

(** [settled s]: [s] and every node below it that a walk can be handed
    has exactly one type. *)
Fixpoint settled (s : Schema) : bool :=
  Nat.eqb (length (Type_ s)) 1
  && forallb (fun kv => settled (snd kv)) (Properties s)
  && match Items s with
     | Some (mkSchemaOrArray (Some it)) => settled it
     | _ => true
     end
  && match AdditionalProperties s with
     | Some (mkSchemaOrBool _ (Some a)) => settled a
     | _ => true
     end.

(** What the invariant asks of a walk at one document. *)
Definition keepsInvariant (walk : Walk) (v : Value) : Prop :=
  forall schema path fields after,
    walk v schema path = (Ok fields, after) ->
    Forall fieldInvariant fields.

(** A walk that hands a settled schema back as it was. *)
Definition keepsSchema (walk : Walk) (v : Value) : Prop :=
  forall schema path,
    settled schema = true ->
    snd (walk v (Some schema) path) = Some schema.

(** What section 4.1 asks of an array node without an [items] schema:
    the object schema synthesized from the parent's properties. *)
Definition synthesizedItemSchema (parent : Schema) : Schema :=
  mkSchema ["object"] [] (Properties parent) None None.

End Parser.

(** The package as the spec describes it whole: the walk of the sources
    over the classifier of section 4.2. *)
Module Package.
Import Parser.

Definition parseResource : Walk :=
  Parser.parseResource Classifier.isOneShotExpression
                       Classifier.extractExpressions.

Definition ParseResource :=
  Parser.ParseResource Classifier.isOneShotExpression
                       Classifier.extractExpressions.

End Package.

(* ================================================================== *)
(** ** Sample inputs *)
(* ================================================================== *)

Module Samples.
Import Errors Condition Controller Parser.

(** A ProcessCRDError that wraps a plain cause and repeats its text. *)
Definition schemaFailure : error :=
  errorWrap ptrProcessCRDError "bad schema"
            (errorNew Opaque "bad schema").

Definition graphFailure (cause : string) : error :=
  errorWrap ptrReconcileGraphError cause (errorNew Opaque cause).

Definition emptyStatus : ResourceGroupStatus := mkStatus EmptyString [] [].

(** The GraphVerified condition derived from a graph failure. *)
Definition graphVerifiedAfter (cause : string) : option Condition :=
  GetCondition
    (Conditions (setResourceGroupStatus emptyStatus []
                   (Some (graphFailure cause))))
    GraphVerified.

(** An After marker of 5 s around a None marker, and a Now marker around
    both. *)
Definition laterInside : error :=
  errorWrap (ptrRequeueNeededAfter 5000000000%Z) "later"
    (errorWrap ptrNoRequeue "never" (errorNew Opaque "cause")).

Definition allMarkers : error := errorWrap ptrRequeueNeeded "now" laterInside.

Definition nowAndNone : error :=
  errorWrap ptrNoRequeue "never"
    (errorWrap ptrRequeueNeeded "now" (errorNew Opaque "cause")).

Definition noneOnly : error :=
  errorWrap ptrProcessCRDError "cause"
    (errorWrap ptrNoRequeue "never" (errorNew Opaque "cause")).

Definition stringSchema : Schema := mkSchema ["string"] [] [] None None.
Definition integerSchema : Schema := mkSchema ["integer"] [] [] None None.

Definition objectOf (properties : list (string * Schema)) : Schema :=
  mkSchema ["object"] [] properties None None.

(** An array schema without [items] whose item shape, an object with a
    string [name], is declared in the array's own properties. *)
Definition hoistedArray : Schema :=
  mkSchema ["array"] [] [("name", stringSchema)] None None.

Definition podSchema : Schema := objectOf [("containers", hoistedArray)].

Definition podItem : Value := VMap [("name", VString "${app.name}")].

Definition pod : list (string * Value) :=
  [("containers", VSlice [podItem])].

(** The same array with the item schema under [items]. *)
Definition itemsArray : Schema :=
  mkSchema ["array"] [] []
           (Some (mkSchemaOrArray (Some (objectOf [("name", stringSchema)]))))
           None.

(** A schema without a type of its own and two alternatives. *)
Definition unionSchema : Schema :=
  mkSchema [] [objectOf []; stringSchema] [] None None.

(** An object whose property [port] and whose array items are unions. *)
Definition stringOrInteger : Schema :=
  mkSchema [] [stringSchema; integerSchema] [] None None.

Definition serviceSchema : Schema :=
  objectOf
    [("port", stringOrInteger);
     ("ports", mkSchema ["array"] [] []
                 (Some (mkSchemaOrArray (Some stringOrInteger))) None)].

Definition service : list (string * Value) :=
  [("port", VString "${spec.port}");
   ("ports", VSlice [VString "http-${spec.name}"])].

(** What the walk of [service] returns with the classifier of the
    spec: its fields, and the schema it leaves. *)
Definition serviceFields : list ExpressionField :=
  Eval vm_compute in
    match fst (Package.ParseResource service (Some serviceSchema)) with
    | Ok fields => fields
    | _ => []
    end.

Definition serviceSchemaAfter : Schema :=
  Eval vm_compute in
    match snd (Package.ParseResource service (Some serviceSchema)) with
    | Some after => after
    | None => serviceSchema
    end.

End Samples.

From Stdlib Require Import Permutation.

(* ================================================================== *)
(** ** Finalizers: [setManaged] and [setUnmanaged] *)
(* ================================================================== *)

Module Finalizers.

Section Managed.
(** [v1alpha1.SymphonyDomainName], a constant declared outside the
    sources. *)
Variable SymphonyDomainName : string.

(** [setManaged], on the finalizers of the resource group it is given:
    the finalizers of the object [dc] it hands to [r.Patch], or [None]
    when it returns nil without a patch. *)
Definition setManaged (finalizers : list string) : option (list string) :=
  let newFinalizers := [SymphonyDomainName] in
  let dc := newFinalizers in
  if negb (Nat.eqb (length dc) (length finalizers)) then Some dc else None.

(** [setUnmanaged]: it always patches, to an object without finalizers. *)
Definition setUnmanaged (finalizers : list string) : option (list string) :=
  let newFinalizers : list string := [] in
  let dc := newFinalizers in
  Some dc.

End Managed.

(** The finalizers of the stored object once the patch that was sent, if
    any, is applied to the object that was read. *)
Definition patched (finalizers : list string) (sent : option (list string))
  : list string :=
  match sent with
  | Some dc => dc
  | None => finalizers
  end.

End Finalizers.

(* ================================================================== *)
(** ** Further vocabulary *)
(* ================================================================== *)

Module Vocabulary.
Import Errors Condition Controller GoStrings Parser.

(** Whether a node of dynamic type [d] is one of the three requeue
    markers. *)
Definition isMarker (d : Dyn) : bool :=
  match typeOf d with
  | Some RequeueNeededAfter | Some RequeueNeeded | Some NoRequeue => true
  | _ => false
  end.

(** Two errors whose chains hold the same phase-error kinds. *)
Definition sameKinds (e1 e2 : error) : bool :=
  forallb (fun k => Bool.eqb (matches e1 k) (matches e2 k)) phaseKinds.

(** A readiness failure caused by a graph failure. *)
Definition graphThenReadiness : error :=
  errorWrap ptrReconcileMicroControllerError "not ready"
    (errorWrap ptrReconcileGraphError "cycle" (errorNew Opaque "cycle")).

(** Whether a document holds a string leaf. *)
Fixpoint hasString (v : Value) : bool :=
  match v with
  | VMap entries => existsb (fun kv => hasString (snd kv)) entries
  | VSlice items => existsb hasString items
  | VString _ => true
  | _ => false
  end.

(** The cutset of the one-shot case. *)
Definition delimiters : string := "${}".

Fixpoint lastClean (body : string) : bool :=
  match body with
  | EmptyString => false
  | String c EmptyString => negb (IndexByte delimiters c)
  | String _ rest => lastClean rest
  end.

(** [cleanBody body]: an expression body that is empty, or that neither
    begins nor ends with one of [$], [{] and [}]. *)
Definition cleanBody (body : string) : bool :=
  match body with
  | EmptyString => true
  | String c _ => negb (IndexByte delimiters c) && lastClean body
  end.

(** The sorts of field the walk builds: a one-shot field with the schema
    node, or an embedded one, typed string or any, without it. *)
Definition fieldShape (f : ExpressionField) : Prop :=
  (OneShotCEL f = true /\ ExpectedSchema f <> None) \/
  (OneShotCEL f = false /\ ExpectedSchema f = None /\
   (ExpectedType f = "string" \/ ExpectedType f = "any")).

(** [f] lies at or below [path]. *)
Definition below (path : string) (f : ExpressionField) : Prop :=
  exists suffix, Path f = path ++ suffix.

(** [yields walk Q v]: every field of a successful walk of [v] started
    at a path satisfies [Q] at that path. *)
Definition yields (walk : Walk) (Q : string -> ExpressionField -> Prop)
           (v : Value) : Prop :=
  forall schema path fields after,
    walk v schema path = (Ok fields, after) -> Forall (Q path) fields.

(** What one round of the map loop gives for an entry, against the
    schema [schema] of the map. *)
Definition fieldResult (walk : Walk) (schema : Schema) (path : string)
           (kv : string * Value) : Outcome (list ExpressionField) :=
  match getFieldSchema schema (fst kv) with
  | None => Err (ErrFieldSchema (path ++ "." ++ fst kv) (fst kv))
  | Some (_, fieldSchema) =>
      fst (walk (snd kv) (Some fieldSchema) (path ++ "." ++ fst kv))
  end.

(** What one round of the array loop gives for the item at index
    [fst ix], against the item schema. *)
Definition itemResult (walk : Walk) (itemSchema : Schema) (path : string)
           (ix : nat * Value) : Outcome (list ExpressionField) :=
  fst (walk (snd ix) (Some itemSchema)
            (path ++ "[" ++ Itoa (fst ix) ++ "]")).

(** The items of a slice with their indexes, counted from [i]. *)
Definition indexed (i : nat) (items : list Value) : list (nat * Value) :=
  combine (seq i (length items)) items.

(** Whether the map case lets a map through to its loop: the resolved
    type is object, or additional properties are allowed. *)
Definition acceptsMap (schema : Schema) : bool :=
  match Type_ schema with
  | [t] => String.eqb t "object" || allowsAdditional schema
  | _ => false
  end.

(** What a walk keeps of the node it is given: its alternatives, the
    names of its properties, whether it allows additional properties and
    whether it has an [Items]. *)
Definition sameFrame (s s' : Schema) : Prop :=
  OneOf s' = OneOf s /\
  map fst (Properties s') = map fst (Properties s) /\
  allowsAdditional s' = allowsAdditional s /\
  (Items s' = None <-> Items s = None).

(** [sameFrame], and the same [Type]. *)
Definition sameTyped (s s' : Schema) : Prop :=
  Type_ s' = Type_ s /\ sameFrame s s'.

(** An object that allows additional properties without a schema for
    them. *)
Definition openObject : Schema :=
  mkSchema ["object"] [] [("name", Samples.stringSchema)] None
           (Some (mkSchemaOrBool true None)).

(** A union whose first alternative has no type. *)
Definition untypedUnion : Schema :=
  mkSchema [] [emptySchema; Samples.stringSchema] [] None None.

Definition settledPodSchema : Schema :=
  Samples.objectOf [("containers", Samples.itemsArray);
                    ("name", Samples.stringSchema)].

Definition namedPod : list (string * Value) :=
  [("name", VString "web-${env}");
   ("containers", VSlice [Samples.podItem])].

(** The fields of the walk of [Samples.service] started at the path
    [spec], with the classifier of the spec. *)
Definition serviceFieldsAtSpec : list ExpressionField :=
  Eval vm_compute in
    match fst (Package.parseResource (VMap Samples.service)
                 (Some Samples.serviceSchema) "spec") with
    | Ok fields => fields
    | _ => []
    end.

(** The fields of the walk of [namedPod]. *)
Definition namedPodFields : list ExpressionField :=
  Eval vm_compute in
    match fst (Package.ParseResource namedPod (Some settledPodSchema)) with
    | Ok fields => fields
    | _ => []
    end.

(** The same document, its entries the other way round. *)
Definition namedPodSwapped : list (string * Value) :=
  [("containers", VSlice [Samples.podItem]);
   ("name", VString "web-${env}")].

(** A document without a string leaf. *)
Definition replicasOnly : Value :=
  VMap [("replicas", VInt 3); ("ports", VSlice [VInt 80; VInt 443])].

Definition replicasSchema : Schema :=
  Samples.objectOf
    [("replicas", Samples.integerSchema);
     ("ports", mkSchema ["array"] [] []
                 (Some (mkSchemaOrArray (Some Samples.integerSchema))) None)].

Definition twoPodsFields : list ExpressionField :=
  Eval vm_compute in
    match fst (Package.parseResource
                 (VSlice [Samples.podItem; Samples.podItem])
                 (Some Samples.itemsArray) "containers") with
    | Ok fields => fields
    | _ => []
    end.

Definition replicasFields : list ExpressionField :=
  Eval vm_compute in
    match fst (Package.parseResource replicasOnly (Some replicasSchema)
                 EmptyString) with
    | Ok fields => fields
    | _ => []
    end.

End Vocabulary.

(* ================================================================== *)
(** ** Theorems: the controller *)
(* ================================================================== *)

Module ControllerFacts.
Import Errors Condition Controller Samples.

(** *** [errors.As] and the chain *)

Lemma As_chain_find (e : error) (target : GoType) :
  As_chain e target = find (fun n => assignable n target) (chain e).
Proof.
  induction e as [d t | d t c IH]; simpl.
  - now destruct (assignable (errorNew d t) target).
  - destruct (assignable (errorWrap d t c) target); [reflexivity | exact IH].
Qed.

Lemma As_marker (e : error) (target : GoType) :
  As (Some e) target = marker e target.
Proof. apply As_chain_find. Qed.

Lemma existsb_find {A : Type} (f : A -> bool) (l : list A) :
  existsb f l = match find f l with Some _ => true | None => false end.
Proof.
  induction l as [|a l IH]; simpl; [reflexivity|].
  now destruct (f a).
Qed.

Lemma As_carries (e : error) (target : GoType) :
  carries e target =
  match As (Some e) target with Some _ => true | None => false end.
Proof. rewrite As_marker. apply existsb_find. Qed.

Lemma As_not_carried (e : error) (target : GoType) :
  carries e target = false -> As (Some e) target = None.
Proof.
  rewrite As_carries. now destruct (As (Some e) target).
Qed.

Lemma As_carried (e : error) (target : GoType) :
  carries e target = true -> exists n, As (Some e) target = Some n.
Proof.
  rewrite As_carries.
  destruct (As (Some e) target) as [n|]; [eauto | discriminate].
Qed.

(** The node [errors.As] finds is of the target's type. *)
Lemma As_assignable (e n : error) (target : GoType) :
  As (Some e) target = Some n -> assignable n target = true.
Proof.
  rewrite As_marker. unfold marker. intros H.
  apply find_some in H. tauto.
Qed.

(** *** Upserts *)

Lemma ConditionType_eqb_eq (a b : ConditionType) :
  ConditionType_eqb a b = true <-> a = b.
Proof. destruct a, b; simpl; split; congruence. Qed.

Lemma ConditionType_eqb_refl (a : ConditionType) :
  ConditionType_eqb a a = true.
Proof. now destruct a. Qed.

(** Upsert, read back at any type. *)
Lemma GetCondition_SetCondition (cs : list Condition) (c : Condition)
      (t : ConditionType) :
  GetCondition (SetCondition cs c) t =
  if ConditionType_eqb (Type_ c) t then Some c else GetCondition cs t.
Proof.
  unfold GetCondition.
  induction cs as [|c0 rest IH]; simpl.
  - now destruct (ConditionType_eqb (Type_ c) t).
  - destruct (ConditionType_eqb (Type_ c0) (Type_ c)) eqn:E0; simpl.
    + apply ConditionType_eqb_eq in E0. rewrite E0.
      now destruct (ConditionType_eqb (Type_ c) t).
    + destruct (ConditionType_eqb (Type_ c0) t) eqn:E1.
      * apply ConditionType_eqb_eq in E1. subst t.
        destruct (ConditionType_eqb (Type_ c) (Type_ c0)) eqn:E2; trivial.
        apply ConditionType_eqb_eq in E2. rewrite E2 in E0.
        now rewrite ConditionType_eqb_refl in E0.
      * exact IH.
Qed.

(** Writing one condition type leaves the other two as they were. *)
Lemma SetCondition_other (cs : list Condition) (c : Condition)
      (t : ConditionType) :
  t <> Type_ c -> GetCondition (SetCondition cs c) t = GetCondition cs t.
Proof.
  intros H. rewrite GetCondition_SetCondition.
  destruct (ConditionType_eqb (Type_ c) t) eqn:E; trivial.
  apply ConditionType_eqb_eq in E. congruence.
Qed.

Lemma Conditions_setState (s : string) (st : ResourceGroupStatus) :
  Conditions (setState s st) = Conditions st.
Proof. reflexivity. Qed.

Ltac read_conditions :=
  unfold upsert, setState, setTopoligicalOrder, setConditions,
    NewReconcilerReadyCondition, NewGraphVerifiedCondition,
    NewCustomResourceDefinitionSyncedCondition, NewCondition;
  simpl; rewrite ?GetCondition_SetCondition; simpl.

(** The three conditions of the error-free pass. *)
Lemma baseline_condition prior topo t :
  GetCondition (Conditions (setResourceGroupStatus prior topo None)) t =
  Some (mkCondition t ConditionTrue EmptyString (messageOf t)).
Proof.
  unfold setResourceGroupStatus.
  read_conditions. now destruct t.
Qed.

(** *** One kind, no kind *)

Lemma matchesOnly_cases e k :
  matchesOnly e k = true ->
  forall k', matches e k' = PhaseKind_eqb k' k.
Proof.
  unfold matchesOnly, phaseKinds. simpl.
  rewrite !andb_true_iff. intros (H1 & H2 & H3 & H4 & _) k'.
  apply eqb_prop. now destruct k'.
Qed.

Lemma matchesOnly_unique e k k' :
  matchesOnly e k = true -> (matches e k' = true <-> k' = k).
Proof.
  intros H. rewrite (matchesOnly_cases e k H).
  destruct k, k'; simpl; split; congruence.
Qed.

Lemma matchesNone_cases e :
  matchesNone e = true -> forall k, matches e k = false.
Proof.
  unfold matchesNone, phaseKinds. simpl.
  rewrite !andb_true_iff, !negb_true_iff.
  intros (H1 & H2 & H3 & H4 & _) k. now destruct k.
Qed.

Ltac split_on_As e :=
  destruct (As (Some e) ProcessCRDError);
  destruct (As (Some e) ReconcileGraphError);
  destruct (As (Some e) ReconcileCRDError);
  destruct (As (Some e) ReconcileMicroControllerError).

(** The whole error path: every block writes the three conditions, so
    the block that runs last decides them all. *)
Lemma errorPath_table prior topo e k :
  lastKind e = Some k ->
  let st := setResourceGroupStatus prior topo (Some e) in
  (forall t, GetCondition (Conditions st) t =
             Some (expectedCondition k t (Error e))) /\
  State st = "INACTIVE" /\
  TopoligicalOrder st = topo.
Proof.
  unfold lastKind, matches. simpl. rewrite !As_carries. simpl phaseType.
  unfold setResourceGroupStatus, ifAs.
  split_on_As e; intros [= <-];
    (split; [intros t; read_conditions; now destruct t | split; reflexivity]).
Qed.

Lemma matchesOnly_lastKind e k :
  matchesOnly e k = true -> lastKind e = Some k.
Proof.
  intros H. unfold lastKind. simpl.
  rewrite !(matchesOnly_cases e k H). now destruct k.
Qed.

(** An error of none of the four kinds runs none of the four blocks. *)
Lemma errorPath_unmatched prior topo e :
  matchesNone e = true ->
  setResourceGroupStatus prior topo (Some e) =
  setState "INACTIVE" (setResourceGroupStatus prior topo None).
Proof.
  intros H. pose proof (matchesNone_cases e H) as Hc.
  pose proof (Hc SchemaError) as H1. pose proof (Hc GraphError) as H2.
  pose proof (Hc SyncError) as H3. pose proof (Hc ReadinessError) as H4.
  clear Hc H.
  unfold matches in H1, H2, H3, H4. rewrite As_carries in H1, H2, H3, H4.
  simpl phaseType in *.
  unfold setResourceGroupStatus, ifAs.
  split_on_As e; try discriminate. reflexivity.
Qed.

(** *** The claims *)

(** C5.  With a nil reconcile error, Ready, GraphVerified and TypeSynced
    all have Status True, the State is ACTIVE and the topological order
    recorded is the one given. *)
Theorem setResourceGroupStatus_nil
        (prior : ResourceGroupStatus) (topologicalOrder : list string) :
  let st := setResourceGroupStatus prior topologicalOrder None in
  statusOf st ReconcilerReady = Some ConditionTrue /\
  statusOf st GraphVerified = Some ConditionTrue /\
  statusOf st CustomResourceDefinitionSynced = Some ConditionTrue /\
  State st = "ACTIVE" /\
  TopoligicalOrder st = topologicalOrder.
Proof.
  cbv zeta. unfold statusOf.
  rewrite !baseline_condition. simpl. repeat split.
Qed.

(** C1.  For a reconcile error that matches exactly one of the four
    phase-error kinds, the three conditions have the Status values of the
    table of section 4.4 for that kind (SchemaError: Unknown, False,
    Unknown; GraphError: False, Unknown, Unknown; SyncError: True, False,
    Unknown; ReadinessError: True, True, False, for GraphVerified,
    TypeSynced and Ready), and the State is INACTIVE. *)
Theorem setResourceGroupStatus_phase_table
        (prior : ResourceGroupStatus) (topologicalOrder : list string)
        (e : error) (k : PhaseKind) :
  matchesOnly e k = true ->
  let st := setResourceGroupStatus prior topologicalOrder (Some e) in
  statusOf st GraphVerified = Some (expectedStatus k GraphVerified) /\
  statusOf st CustomResourceDefinitionSynced =
    Some (expectedStatus k CustomResourceDefinitionSynced) /\
  statusOf st ReconcilerReady = Some (expectedStatus k ReconcilerReady) /\
  State st = "INACTIVE".
Proof.
  intros H st.
  destruct (errorPath_table prior topologicalOrder e k
              (matchesOnly_lastKind e k H)) as (Hc & Hs & _).
  fold st in Hc, Hs. unfold statusOf. rewrite !Hc. simpl.
  repeat split; assumption.
Qed.

Lemma setResourceGroupStatus_phase_table_witness :
  let st := setResourceGroupStatus emptyStatus ["a"; "b"]
                                   (Some schemaFailure) in
  statusOf st GraphVerified = Some ConditionUnknown /\
  statusOf st CustomResourceDefinitionSynced = Some ConditionFalse /\
  statusOf st ReconcilerReady = Some ConditionUnknown /\
  State st = "INACTIVE".
Proof.
  apply (setResourceGroupStatus_phase_table emptyStatus ["a"; "b"]
           schemaFailure SchemaError).
  reflexivity.
Defined.

(** C9.  For a non-nil reconcile error that matches none of the four
    phase-error kinds, the State is INACTIVE, the three conditions keep
    the baseline Status True, and the topological order given is
    recorded. *)
Theorem setResourceGroupStatus_unmatched
        (prior : ResourceGroupStatus) (topologicalOrder : list string)
        (e : error) :
  matchesNone e = true ->
  let st := setResourceGroupStatus prior topologicalOrder (Some e) in
  State st = "INACTIVE" /\
  statusOf st ReconcilerReady = Some ConditionTrue /\
  statusOf st GraphVerified = Some ConditionTrue /\
  statusOf st CustomResourceDefinitionSynced = Some ConditionTrue /\
  TopoligicalOrder st = topologicalOrder.
Proof.
  intros H st. unfold st.
  rewrite (errorPath_unmatched prior topologicalOrder e H).
  unfold statusOf. rewrite Conditions_setState.
  rewrite !baseline_condition. repeat split.
Qed.

Lemma setResourceGroupStatus_unmatched_witness :
  let st := setResourceGroupStatus emptyStatus ["a"]
              (Some (errorWrap ptrRequeueNeeded "retry"
                               (errorNew Opaque "conflict"))) in
  State st = "INACTIVE" /\
  statusOf st ReconcilerReady = Some ConditionTrue /\
  statusOf st GraphVerified = Some ConditionTrue /\
  statusOf st CustomResourceDefinitionSynced = Some ConditionTrue /\
  TopoligicalOrder st = ["a"].
Proof.
  apply (setResourceGroupStatus_unmatched emptyStatus ["a"]).
  reflexivity.
Defined.

(** C3, as the claim states it, fails: under a ReconcileGraphError the
    GraphVerified condition has the error's text as its Reason, so that
    two causes give two reasons, and a Message that is not the cause
    text. *)
Lemma setResourceGroupStatus_reason_is_cause_text :
  option_map Reason (graphVerifiedAfter "cycle: a -> b -> a") =
    Some "cycle: a -> b -> a" /\
  option_map Reason (graphVerifiedAfter "unknown resource c") =
    Some "unknown resource c" /\
  option_map Reason (graphVerifiedAfter "cycle: a -> b -> a") <>
    option_map Reason (graphVerifiedAfter "unknown resource c") /\
  option_map Message (graphVerifiedAfter "cycle: a -> b -> a") =
    Some "Directed Acyclic Graph is synced" /\
  option_map Message (graphVerifiedAfter "cycle: a -> b -> a") <>
    Some "cycle: a -> b -> a".
Proof.
  repeat split; try reflexivity; vm_compute; discriminate.
Qed.

(** C3, amended.  For every reconcile error that matches a phase-error
    kind, with [k] the kind whose block runs last (the only kind, when it
    matches one), every condition on the error path has as Message the
    fixed text of its condition type, whatever the error; its Reason is
    the text of the error on the condition set to False (after the prefix
    "error parsing schema: " under a SchemaError, where GraphVerified has
    the same prefixed text), the fixed token "Faulty Graph" or
    "CRD not-synced" on the other conditions set to Unknown, and empty
    on the conditions set to True. *)
Theorem setResourceGroupStatus_reason_message
        (prior : ResourceGroupStatus) (topologicalOrder : list string)
        (e : error) (k : PhaseKind) (t : ConditionType) :
  lastKind e = Some k ->
  exists c,
    GetCondition
      (Conditions (setResourceGroupStatus prior topologicalOrder (Some e)))
      t = Some c /\
    Message c = messageOf t /\
    Reason c = reasonOf k t (Error e).
Proof.
  intros H.
  destruct (errorPath_table prior topologicalOrder e k H) as (Hc & _).
  exists (expectedCondition k t (Error e)). split; [apply Hc|].
  split; reflexivity.
Qed.

Lemma setResourceGroupStatus_reason_message_witness :
  exists c,
    GetCondition
      (Conditions (setResourceGroupStatus emptyStatus []
                     (Some (graphFailure "cycle: a -> b -> a"))))
      GraphVerified = Some c /\
    Message c = "Directed Acyclic Graph is synced" /\
    Reason c = "cycle: a -> b -> a".
Proof.
  apply (setResourceGroupStatus_reason_message emptyStatus []
           (graphFailure "cycle: a -> b -> a") GraphError GraphVerified).
  reflexivity.
Defined.

(** C6.  [handleReconcileError] looks for the markers in the order
    After, Now, None.  An error that carries an After marker gives
    [RequeueAfter] the duration of that marker (the first one of the
    chain) and no error, whatever else it carries; without an After
    marker, one that carries a Now marker gives [Requeue] true and no
    error; without those two, one that carries a None marker gives the
    empty result and no error; an error with no marker comes back
    unchanged next to the empty result. *)
Theorem handleReconcileError_priority (e : error) :
  (forall n, marker e RequeueNeededAfter = Some n ->
     handleReconcileError (Some e) =
     (mkResult false (Duration n), None)) /\
  (carries e RequeueNeededAfter = false ->
   carries e RequeueNeeded = true ->
     handleReconcileError (Some e) = (mkResult true 0%Z, None)) /\
  (carries e RequeueNeededAfter = false ->
   carries e RequeueNeeded = false ->
   carries e NoRequeue = true ->
     handleReconcileError (Some e) = (emptyResult, None)) /\
  (carries e RequeueNeededAfter = false ->
   carries e RequeueNeeded = false ->
   carries e NoRequeue = false ->
     handleReconcileError (Some e) = (emptyResult, Some e)).
Proof.
  unfold handleReconcileError. repeat split.
  - intros n H. rewrite As_marker, H. reflexivity.
  - intros HA HN. rewrite (As_not_carried _ _ HA).
    destruct (As_carried _ _ HN) as [n ->]. reflexivity.
  - intros HA HN H0. rewrite (As_not_carried _ _ HA), (As_not_carried _ _ HN).
    destruct (As_carried _ _ H0) as [n ->]. reflexivity.
  - intros HA HN H0.
    now rewrite (As_not_carried _ _ HA), (As_not_carried _ _ HN),
      (As_not_carried _ _ H0).
Qed.

Lemma handleReconcileError_priority_witness :
  handleReconcileError (Some allMarkers) =
    (mkResult false 5000000000%Z, None) /\
  handleReconcileError (Some nowAndNone) = (mkResult true 0%Z, None) /\
  handleReconcileError (Some noneOnly) = (emptyResult, None) /\
  handleReconcileError (Some schemaFailure) =
    (emptyResult, Some schemaFailure).
Proof.
  split; [| split; [| split]].
  - apply (proj1 (handleReconcileError_priority allMarkers) laterInside).
    reflexivity.
  - apply (proj1 (proj2 (handleReconcileError_priority nowAndNone)));
      reflexivity.
  - apply (proj1 (proj2 (proj2 (handleReconcileError_priority noneOnly))));
      reflexivity.
  - apply (proj2 (proj2 (proj2
             (handleReconcileError_priority schemaFailure))));
      reflexivity.
Defined.

(** C10.  Called with a nil error, [handleReconcileError] returns the
    empty result and a nil error: no requeue, no requeue-after delay. *)
Theorem handleReconcileError_nil :
  handleReconcileError None = (emptyResult, None) /\
  Requeue (fst (handleReconcileError None)) = false /\
  RequeueAfter (fst (handleReconcileError None)) = 0%Z.
Proof. repeat split. Qed.

End ControllerFacts.

(* ================================================================== *)
(** ** Theorems: the parser *)
(* ================================================================== *)

Module ParserFacts.
Import GoStrings Parser.

Arguments rangeFields : simpl never.
Arguments rangeItems : simpl never.

(** The two loops, one round at a time. *)
Lemma rangeFields_nil (walk : Walk) path schema acc :
  rangeFields walk path [] schema acc = (Ok acc, schema).
Proof. reflexivity. Qed.

Lemma rangeFields_cons (walk : Walk) path field value rest schema acc :
  rangeFields walk path ((field, value) :: rest) schema acc =
  match getFieldSchema schema field with
  | None => (Err (ErrFieldSchema (path ++ "." ++ field) field), schema)
  | Some (ref, fieldSchema) =>
      let '(r, after) :=
        walk value (Some fieldSchema) (path ++ "." ++ field) in
      let schema' := writeField schema field ref fieldSchema after in
      match r with
      | Ok fieldExpressions =>
          rangeFields walk path rest schema'
                      (acc ++ fieldExpressions)%list
      | Err e => (Err e, schema')
      | Panic => (Panic, schema')
      end
  end.
Proof. reflexivity. Qed.

Lemma rangeItems_nil (walk : Walk) path i itemSchema acc :
  rangeItems walk path [] i itemSchema acc = (Ok acc, itemSchema).
Proof. reflexivity. Qed.

Lemma rangeItems_cons (walk : Walk) path item rest i itemSchema acc :
  rangeItems walk path (item :: rest) i itemSchema acc =
  let '(r, after) :=
    walk item itemSchema (path ++ "[" ++ Itoa i ++ "]") in
  match r with
  | Ok itemExpressions =>
      rangeItems walk path rest (S i) after (acc ++ itemExpressions)%list
  | Err e => (Err e, after)
  | Panic => (Panic, after)
  end.
Proof. reflexivity. Qed.

(** A node with one type is left as it is. *)
Lemma resolveType_single (schema : Schema) (t : string) :
  Type_ schema = [t] -> resolveType schema = Ok schema.
Proof. intros H. unfold resolveType. now rewrite H. Qed.

(** *** Writes that change nothing *)

Lemma setType_same (s : Schema) : setType s (Type_ s) = s.
Proof. now destruct s. Qed.

Lemma setProperties_same (s : Schema) : setProperties s (Properties s) = s.
Proof. now destruct s. Qed.

Lemma setItemsSchema_same (s it : Schema) :
  itemsSchema s = Some it -> setItemsSchema s (Some it) = s.
Proof.
  destruct s as [T O P [[i]|] A]; unfold itemsSchema, setItemsSchema;
    simpl; intros H; try discriminate. now subst i.
Qed.

Lemma setAdditionalSchema_same (s : Schema) ap a :
  AdditionalProperties s = Some ap ->
  AllowsSchema ap = Some a ->
  setAdditionalSchema s (Some a) = s.
Proof.
  destruct s as [T O P I A]. simpl. intros -> H.
  destruct ap as [allows sch]. simpl in *. now subst sch.
Qed.

Lemma store_lookup field v (m : list (string * Schema)) :
  lookup field m = Some v -> store field v m = m.
Proof.
  induction m as [|[k v0] rest IH]; simpl; [reflexivity|].
  destruct (String.eqb k field); [congruence|].
  intros H. now rewrite IH.
Qed.

(** *** [settled], one level down *)

Lemma settled_single (s : Schema) :
  settled s = true -> exists t, Type_ s = [t].
Proof.
  destruct s as [T O P I A]. simpl.
  rewrite !andb_true_iff. intros [[[H _] _] _].
  apply Nat.eqb_eq in H.
  destruct T as [|t [|? ?]]; try discriminate. now exists t.
Qed.

Lemma settled_property (s : Schema) field fieldSchema :
  settled s = true ->
  lookup field (Properties s) = Some fieldSchema ->
  settled fieldSchema = true.
Proof.
  destruct s as [T O P I A]. simpl.
  rewrite !andb_true_iff. intros [[[_ H] _] _]. revert H.
  induction P as [|[k v] rest IH]; simpl; [discriminate|].
  rewrite andb_true_iff. intros [Hv Hrest].
  destruct (String.eqb k field); [congruence | now apply IH].
Qed.

Lemma settled_items (s it : Schema) :
  settled s = true -> itemsSchema s = Some it -> settled it = true.
Proof.
  destruct s as [T O P [[i]|] A]; unfold itemsSchema; simpl;
    try discriminate.
  rewrite !andb_true_iff. intros [[_ H] _] E. now rewrite E in H.
Qed.

Lemma settled_additional (s : Schema) ap a :
  settled s = true ->
  AdditionalProperties s = Some ap ->
  AllowsSchema ap = Some a ->
  settled a = true.
Proof.
  destruct s as [T O P I A]. simpl.
  rewrite !andb_true_iff. intros [_ H] -> Ha.
  destruct ap as [allows sch]. simpl in *. now subst sch.
Qed.

Lemma writeField_fresh schema field before after :
  writeField schema field FreshSchema before after = schema.
Proof. now destruct after. Qed.

(** The pointee of a field of a settled node is new or settled, and
    writing it back as it was changes nothing. *)
Lemma writeField_frame schema field ref fieldSchema :
  settled schema = true ->
  getFieldSchema schema field = Some (ref, fieldSchema) ->
  (ref = FreshSchema \/ settled fieldSchema = true) /\
  writeField schema field ref fieldSchema (Some fieldSchema) = schema.
Proof.
  intros Hs. unfold getFieldSchema.
  destruct (lookup field (Properties schema)) as [p|] eqn:L.
  - intros [= <- <-]. split.
    + right. exact (settled_property _ _ _ Hs L).
    + simpl. rewrite setType_same, (store_lookup _ _ _ L).
      apply setProperties_same.
  - destruct (AdditionalProperties schema) as [ap|] eqn:A;
      [|discriminate].
    destruct (AllowsSchema ap) as [a|] eqn:S.
    + intros [= <- <-]. split.
      * right. exact (settled_additional _ _ _ Hs A S).
      * simpl. exact (setAdditionalSchema_same _ _ _ A S).
    + destruct (Allows ap); [|discriminate].
      intros [= <- <-]. split; [now left | reflexivity].
Qed.

Section AnyClassifier.
Variable isOneShotExpression : string -> Outcome bool.
Variable extractExpressions : string -> Outcome (list string).

Abbreviation parseString :=
  (parseString isOneShotExpression extractExpressions).
Abbreviation parseResource :=
  (parseResource isOneShotExpression extractExpressions).

(** *** The invariant of the fields *)

Lemma parseString_invariant field schema expectedType path fields :
  parseString field schema expectedType path = Ok fields ->
  Forall fieldInvariant fields.
Proof.
  unfold Parser.parseString.
  destruct (isOneShotExpression field) as [[|]| |]; try discriminate.
  - intros [= <-]. constructor; [|constructor].
    split; simpl; [reflexivity | discriminate].
  - destruct (negb (expectedType =? "string")
              && negb (expectedType =? "any")); try discriminate.
    destruct (extractExpressions field) as [expressions| |];
      try discriminate.
    destruct (Nat.ltb 0 (length expressions)) eqn:L; intros [= <-].
    + constructor; [|constructor].
      apply Nat.ltb_lt in L. split; simpl; [discriminate | lia].
    + constructor.
Qed.

Lemma parseScalar_empty field expectedType path fields :
  parseScalar field expectedType path = Ok fields -> fields = [].
Proof.
  unfold parseScalar.
  repeat match goal with
         | |- context [if ?b then _ else _] => destruct b
         end;
    destruct field; congruence.
Qed.

Lemma rangeFields_invariant (walk : Walk) path entries :
  Forall (fun kv => keepsInvariant walk (snd kv)) entries ->
  forall schema acc fields after,
    Forall fieldInvariant acc ->
    rangeFields walk path entries schema acc = (Ok fields, after) ->
    Forall fieldInvariant fields.
Proof.
  induction 1 as [|[field value] rest Hv _ IH];
    intros schema acc fields after Hacc.
  - rewrite rangeFields_nil. now intros [= <- _].
  - rewrite rangeFields_cons.
    destruct (getFieldSchema schema field) as [[ref fieldSchema]|];
      try discriminate.
    destruct (walk value (Some fieldSchema) (path ++ "." ++ field))
      as [[found| |] child] eqn:W; try discriminate.
    apply IH. apply Forall_app. split; [assumption|].
    exact (Hv _ _ _ _ W).
Qed.

Lemma rangeItems_invariant (walk : Walk) path items :
  Forall (keepsInvariant walk) items ->
  forall i itemSchema acc fields after,
    Forall fieldInvariant acc ->
    rangeItems walk path items i itemSchema acc = (Ok fields, after) ->
    Forall fieldInvariant fields.
Proof.
  induction 1 as [|item rest Hv _ IH];
    intros i itemSchema acc fields after Hacc.
  - rewrite rangeItems_nil. now intros [= <- _].
  - rewrite rangeItems_cons.
    destruct (walk item itemSchema (path ++ "[" ++ Itoa i ++ "]"))
      as [[found| |] child] eqn:W; try discriminate.
    apply IH. apply Forall_app. split; [assumption|].
    exact (Hv _ _ _ _ W).
Qed.

Lemma parseResource_invariant (resource : Value) :
  keepsInvariant parseResource resource.
Proof.
  induction resource as [entries IH | items IH | s | | | | | | |]
    using Value_nested_ind;
    intros schema path fields after;
    (destruct schema as [schema|]; [|discriminate]); simpl;
    (destruct (resolveType schema) as [resolved| |]; [|discriminate..]);
    (destruct (index0 (Type_ resolved)) as [type0| |]; [|discriminate..]);
    try (intros [= H _]; now rewrite (parseScalar_empty _ _ _ _ H)).
  - match goal with
    | |- context [if ?b then _ else _] => destruct b; [discriminate|]
    end.
    destruct (rangeFields _ _ _ _ _) as [r node] eqn:R.
    intros [= -> _].
    eapply rangeFields_invariant; [exact IH | constructor | exact R].
  - match goal with
    | |- context [if ?b then _ else _] => destruct b; [discriminate|]
    end.
    destruct (itemsSchema resolved) as [itemSchema|]; [|discriminate].
    destruct (rangeItems _ _ _ _ _ _) as [r node] eqn:R.
    intros [= -> _].
    eapply rangeItems_invariant; [exact IH | constructor | exact R].
  - intros [= H _]. exact (parseString_invariant _ _ _ _ _ H).
Qed.

(** *** Arrays *)

(** With an [items] schema, the items are walked against it. *)
Lemma parseResource_array_items items schema itemSchema path :
  Type_ schema = ["array"] ->
  itemsSchema schema = Some itemSchema ->
  parseResource (VSlice items) (Some schema) path =
  (fst (rangeItems parseResource path items 0 (Some itemSchema) []),
   Some (writeItems schema ItemsPointer
           (snd (rangeItems parseResource path items 0
                   (Some itemSchema) [])))).
Proof.
  intros HT HI. simpl.
  rewrite (resolveType_single _ _ HT), HT. simpl. rewrite HI.
  now destruct (rangeItems _ _ _ _ _ _).
Qed.

(** Without one, the walk fails, whatever properties the parent
    declares. *)
Lemma parseResource_array_without_items items schema path :
  Type_ schema = ["array"] ->
  itemsSchema schema = None ->
  parseResource (VSlice items) (Some schema) path =
  (Err (ErrInvalidArraySchema path), Some schema).
Proof.
  intros HT HI. simpl.
  rewrite (resolveType_single _ _ HT), HT. simpl. now rewrite HI.
Qed.

(** *** One-shot leaves *)

(** A one-shot field carries its leaf with every leading and trailing
    [$], [{] and [}] removed. *)
Lemma parseResource_one_shot_text field schema path fields f :
  fst (parseResource (VString field) schema path) = Ok fields ->
  In f fields ->
  OneShotCEL f = true ->
  Expressions f = [Trim field "${}"].
Proof.
  destruct schema as [schema|]; [|discriminate]. simpl.
  destruct (resolveType schema) as [resolved| |]; [|discriminate..].
  destruct (index0 (Type_ resolved)) as [type0| |]; [|discriminate..].
  simpl. unfold Parser.parseString.
  destruct (isOneShotExpression field) as [[|]| |]; try discriminate.
  - intros [= <-] [<-|[]] _. reflexivity.
  - match goal with
    | |- context [if ?b then _ else _] => destruct b; [discriminate|]
    end.
    destruct (extractExpressions field) as [expressions| |];
      try discriminate.
    destruct (Nat.ltb 0 (length expressions)); intros [= <-].
    + intros [<-|[]]. discriminate.
    + intros [].
Qed.

(** *** What a walk leaves of the schema *)

Lemma rangeFields_frame (walk : Walk) path entries :
  Forall (fun kv => keepsSchema walk (snd kv)) entries ->
  forall schema acc,
    settled schema = true ->
    snd (rangeFields walk path entries schema acc) = schema.
Proof.
  induction 1 as [|[field value] rest Hv _ IH]; intros schema acc Hs.
  - reflexivity.
  - rewrite rangeFields_cons.
    destruct (getFieldSchema schema field) as [[ref fieldSchema]|] eqn:G;
      [|reflexivity].
    destruct (walk value (Some fieldSchema) (path ++ "." ++ field))
      as [r after] eqn:W.
    assert (writeField schema field ref fieldSchema after = schema)
      as ->.
    { destruct (writeField_frame _ _ _ _ Hs G) as [[-> | Hf] Hw].
      - apply writeField_fresh.
      - specialize (Hv fieldSchema (path ++ "." ++ field) Hf).
        cbn [snd] in Hv. rewrite W in Hv. cbn [snd] in Hv.
        now subst after. }
    destruct r; [now apply IH | reflexivity..].
Qed.

Lemma rangeItems_frame (walk : Walk) path items :
  Forall (keepsSchema walk) items ->
  forall i itemSchema acc,
    settled itemSchema = true ->
    snd (rangeItems walk path items i (Some itemSchema) acc) =
    Some itemSchema.
Proof.
  induction 1 as [|item rest Hv _ IH]; intros i itemSchema acc Hs.
  - reflexivity.
  - rewrite rangeItems_cons.
    specialize (Hv itemSchema (path ++ "[" ++ Itoa i ++ "]") Hs).
    destruct (walk item (Some itemSchema) (path ++ "[" ++ Itoa i ++ "]"))
      as [r after]. simpl in Hv. subst after.
    destruct r; [now apply IH | reflexivity..].
Qed.

(** A walk leaves a schema as it found it when every node has one
    type: the only write is the one that resolves a union. *)
Lemma parseResource_frame (resource : Value) :
  keepsSchema parseResource resource.
Proof.
  induction resource as [entries IH | items IH | s | | | | | | |]
    using Value_nested_ind;
    intros schema path Hs;
    destruct (settled_single _ Hs) as [type0 HT]; simpl;
    rewrite (resolveType_single _ _ HT), HT; simpl; try reflexivity.
  - match goal with
    | |- context [if ?b then _ else _] => destruct b; [reflexivity|]
    end.
    pose proof (rangeFields_frame _ path _ IH schema [] Hs) as F.
    destruct (rangeFields _ _ _ _ _) as [r node]. simpl in *.
    now subst node.
  - match goal with
    | |- context [if ?b then _ else _] => destruct b; [reflexivity|]
    end.
    destruct (itemsSchema schema) as [itemSchema|] eqn:HI;
      [|reflexivity].
    pose proof (rangeItems_frame _ path _ IH 0 itemSchema []
                  (settled_items _ _ Hs HI)) as F.
    destruct (rangeItems _ _ _ _ _ _) as [r node]. simpl in *.
    subst node. simpl. f_equal. now apply setItemsSchema_same.
Qed.

End AnyClassifier.

(** *** The claims *)

(** C8.  Every ExpressionField that ParseResource returns has exactly
    one entry in Expressions when OneShotCEL is true, and at least one
    when OneShotCEL is false; this holds whatever the two classifier
    functions return. *)
Theorem ParseResource_field_invariant
        (isOneShotExpression : string -> Outcome bool)
        (extractExpressions : string -> Outcome (list string))
        (resource : list (string * Value)) (resourceSchema : option Schema)
        (fields : list ExpressionField) (after : option Schema) :
  Parser.ParseResource isOneShotExpression extractExpressions
                       resource resourceSchema = (Ok fields, after) ->
  Forall fieldInvariant fields.
Proof.
  intros H.
  exact (parseResource_invariant _ _ _ _ _ _ _ H).
Qed.

Lemma ParseResource_field_invariant_witness :
  Forall fieldInvariant Samples.serviceFields.
Proof.
  apply (ParseResource_field_invariant
           Classifier.isOneShotExpression Classifier.extractExpressions
           Samples.service (Some Samples.serviceSchema)
           Samples.serviceFields (Some Samples.serviceSchemaAfter)).
  reflexivity.
Defined.

(** The sample has a field of either sort. *)
Example serviceFields_shape :
  map (fun f => (Path f, Expressions f, OneShotCEL f))
      Samples.serviceFields =
  [(".port", ["spec.port"], true); (".ports[0]", ["spec.name"], false)].
Proof. reflexivity. Qed.

(** C2.  An array node whose schema has no [items] schema and whose
    parent schema declares properties: the walk fails with "neither
    Items.Schema nor Properties are defined", where the claim has it walk
    the items against the object schema synthesized from those
    properties, which succeeds. *)
Theorem ParseResource_hoisted_array_fails :
  Package.ParseResource Samples.pod (Some Samples.podSchema) =
    (Err (ErrInvalidArraySchema ".containers"), Some Samples.podSchema) /\
  Properties Samples.hoistedArray = [("name", Samples.stringSchema)] /\
  fst (rangeItems Package.parseResource ".containers" [Samples.podItem] 0
         (Some (synthesizedItemSchema Samples.hoistedArray)) []) =
    Ok [mkExpressionField ".containers[0].name" ["app.name"] "string"
          (Some Samples.stringSchema) true].
Proof. repeat split. Qed.

(** With the item schema under [items] the same document is walked. *)
Example ParseResource_items_array :
  fst (Package.ParseResource Samples.pod
         (Some (Samples.objectOf [("containers", Samples.itemsArray)]))) =
  Ok [mkExpressionField ".containers[0].name" ["app.name"] "string"
        (Some Samples.stringSchema) true].
Proof. reflexivity. Qed.

(** C4.  For the leaf "${a{b}}" the walk emits a one-shot field whose
    text is "a{b": the closing brace of the body is trimmed away with the
    delimiters, where the claim has "a{b}", the body the classifier
    itself extracts. *)
Theorem ParseResource_nested_brace_truncated :
  fst (Package.ParseResource
         [("name", VString "${a{b}}")]
         (Some (Samples.objectOf [("name", Samples.stringSchema)]))) =
    Ok [mkExpressionField ".name" ["a{b"] "string"
          (Some Samples.stringSchema) true] /\
  Classifier.isOneShotExpression "${a{b}}" = Ok true /\
  Classifier.extractExpressions "${a{b}}" = Ok ["a{b}"].
Proof. repeat split. Qed.

(** Whatever the classifier, the leaf never gives a one-shot field with
    the text "a{b}". *)
Lemma parseResource_nested_brace_any_classifier
      (isOneShotExpression : string -> Outcome bool)
      (extractExpressions : string -> Outcome (list string))
      schema path fields f :
  fst (Parser.parseResource isOneShotExpression extractExpressions
         (VString "${a{b}}") schema path) = Ok fields ->
  In f fields ->
  OneShotCEL f = true ->
  Expressions f = ["a{b"].
Proof.
  intros H Hf Hone.
  exact (parseResource_one_shot_text _ _ _ _ _ _ _ H Hf Hone).
Qed.

(** C7.  A schema without a type of its own and with a oneOf union: the
    walk of the empty document succeeds and leaves the type of the first
    alternative written into the caller's schema, where the claim has
    the schema unchanged. *)
Theorem ParseResource_writes_union_type :
  Package.ParseResource [] (Some Samples.unionSchema) =
    (Ok [], Some (setType Samples.unionSchema ["object"])) /\
  Type_ Samples.unionSchema = [] /\
  snd (Package.ParseResource [] (Some Samples.unionSchema)) <>
    Some Samples.unionSchema.
Proof. repeat split. simpl. discriminate. Qed.

(** Below the root the write reaches the caller's schema through the
    [items] pointer, and not through the copy of a map value. *)
Example ParseResource_writes_through_items :
  snd (Package.ParseResource Samples.service
         (Some Samples.serviceSchema)) =
  Some (Samples.objectOf
          [("port", Samples.stringOrInteger);
           ("ports",
             mkSchema ["array"] [] []
               (Some (mkSchemaOrArray
                        (Some (setType Samples.stringOrInteger
                                       ["string"]))))
               None)]).
Proof. reflexivity. Qed.

(** A schema with one type at every node comes back as it was. *)
Example ParseResource_settled_unchanged :
  snd (Package.ParseResource Samples.pod
         (Some (Samples.objectOf [("containers", Samples.itemsArray)]))) =
  Some (Samples.objectOf [("containers", Samples.itemsArray)]).
Proof.
  apply (parseResource_frame Classifier.isOneShotExpression
           Classifier.extractExpressions (VMap Samples.pod)).
  reflexivity.
Qed.

End ParserFacts.

(* ================================================================== *)
(** ** Further theorems: the controller *)
(* ================================================================== *)

Module ControllerExtras.
Import Errors Condition Controller Samples Vocabulary ControllerFacts.

(** *** [handleReconcileError] *)

(** X1.  [handleReconcileError] never returns an error together with a
    requeue request: either the error is nil, or it is the error given
    and the result is empty; and [Requeue] is never set together with a
    [RequeueAfter] delay. *)
Theorem handleReconcileError_exclusive (err : option error) :
  let r := handleReconcileError err in
  (snd r = None \/ (snd r = err /\ fst r = emptyResult)) /\
  (Requeue (fst r) = false \/ RequeueAfter (fst r) = 0%Z).
Proof.
  unfold handleReconcileError.
  destruct (As err RequeueNeededAfter); [simpl; auto|].
  destruct (As err RequeueNeeded); [simpl; auto|].
  destruct (As err NoRequeue); simpl; auto.
Qed.

Lemma As_wrap_other (d : Dyn) (text : string) (e : error) (target : GoType) :
  typeOf d <> Some target ->
  As (Some (errorWrap d text e)) target = As (Some e) target.
Proof.
  intros H. simpl. unfold assignable. simpl.
  destruct (typeOf d) as [t|]; [|reflexivity].
  destruct (GoType_eqb t target) eqn:E; [|reflexivity].
  exfalso. apply H. f_equal. now destruct t, target.
Qed.

(** X2.  Wrapping an error in a node that is no requeue marker (a phase
    error, or any other error type) changes nothing of the scheduling
    result, and an error that was absorbed stays absorbed. *)
Theorem handleReconcileError_wrapper
        (d : Dyn) (text : string) (e : error) :
  isMarker d = false ->
  fst (handleReconcileError (Some (errorWrap d text e))) =
    fst (handleReconcileError (Some e)) /\
  (snd (handleReconcileError (Some (errorWrap d text e))) = None <->
   snd (handleReconcileError (Some e)) = None).
Proof.
  intros H. unfold handleReconcileError.
  rewrite !As_wrap_other
    by (unfold isMarker in H; destruct (typeOf d) as [[]|]; congruence).
  destruct (As (Some e) RequeueNeededAfter); [simpl; tauto|].
  destruct (As (Some e) RequeueNeeded); [simpl; tauto|].
  destruct (As (Some e) NoRequeue); simpl; [tauto|].
  split; [reflexivity | split; discriminate].
Qed.

Lemma handleReconcileError_wrapper_witness :
  fst (handleReconcileError
         (Some (errorWrap ptrProcessCRDError "bad schema" laterInside))) =
    fst (handleReconcileError (Some laterInside)) /\
  (snd (handleReconcileError
          (Some (errorWrap ptrProcessCRDError "bad schema" laterInside))) =
     None <->
   snd (handleReconcileError (Some laterInside)) = None).
Proof.
  apply (handleReconcileError_wrapper ptrProcessCRDError "bad schema"
           laterInside).
  reflexivity.
Defined.

(** *** [setResourceGroupStatus] *)

Lemma lastKind_none (e : error) :
  lastKind e = None -> matchesNone e = true.
Proof.
  unfold lastKind, matchesNone. simpl.
  destruct (matches e ReadinessError); [discriminate|].
  destruct (matches e SyncError); [discriminate|].
  destruct (matches e GraphError); [discriminate|].
  destruct (matches e SchemaError); [discriminate|]. reflexivity.
Qed.

(** The three conditions of any pass, by the block that ran last. *)
Lemma derived_condition prior topo e t :
  GetCondition (Conditions (setResourceGroupStatus prior topo (Some e))) t =
  Some (match lastKind e with
        | Some k => expectedCondition k t (Error e)
        | None => mkCondition t ConditionTrue EmptyString (messageOf t)
        end).
Proof.
  destruct (lastKind e) as [k|] eqn:L.
  - now destruct (errorPath_table prior topo e k L) as (Hc & _).
  - rewrite (errorPath_unmatched prior topo e (lastKind_none e L)).
    rewrite Conditions_setState. apply baseline_condition.
Qed.

Lemma derived_order prior topo err :
  TopoligicalOrder (setResourceGroupStatus prior topo err) = topo.
Proof.
  destruct err as [e|]; [|reflexivity].
  unfold setResourceGroupStatus, ifAs. now split_on_As e.
Qed.

Lemma derived_state prior topo err :
  State (setResourceGroupStatus prior topo err) =
  match err with
  | None => "ACTIVE"
  | Some _ => "INACTIVE"
  end.
Proof. now destruct err. Qed.

(** X3.  Whatever the reconcile error, the topological order given is
    recorded, the State is ACTIVE exactly when the error is nil, and each
    of the three conditions is present with the fixed message of its
    type. *)
Theorem setResourceGroupStatus_always
        (prior : ResourceGroupStatus) (topologicalOrder : list string)
        (reconcileErr : option error) :
  let st := setResourceGroupStatus prior topologicalOrder reconcileErr in
  TopoligicalOrder st = topologicalOrder /\
  State st = (match reconcileErr with
              | None => "ACTIVE"
              | Some _ => "INACTIVE"
              end) /\
  Forall (fun t => exists c,
            GetCondition (Conditions st) t = Some c /\
            Type_ c = t /\ Message c = messageOf t)
         [ReconcilerReady; GraphVerified; CustomResourceDefinitionSynced].
Proof.
  cbv zeta. split; [apply derived_order | split; [apply derived_state|]].
  destruct reconcileErr as [e|].
  - repeat constructor; rewrite derived_condition; eexists;
      (split; [reflexivity|]); now destruct (lastKind e).
  - repeat constructor; rewrite baseline_condition; eexists;
      (split; [reflexivity|]); split; reflexivity.
Qed.

(** X4.  When an error matches several phase-error kinds the block that
    runs last wins: the three Status values are the row of the table of
    the last kind matched in the order SchemaError, GraphError,
    SyncError, ReadinessError. *)
Theorem setResourceGroupStatus_last_kind_wins
        (prior : ResourceGroupStatus) (topologicalOrder : list string)
        (e : error) (k : PhaseKind) :
  lastKind e = Some k ->
  let st := setResourceGroupStatus prior topologicalOrder (Some e) in
  statusOf st GraphVerified = Some (expectedStatus k GraphVerified) /\
  statusOf st CustomResourceDefinitionSynced =
    Some (expectedStatus k CustomResourceDefinitionSynced) /\
  statusOf st ReconcilerReady = Some (expectedStatus k ReconcilerReady).
Proof.
  intros H st. unfold statusOf, st.
  rewrite !derived_condition, H. repeat split.
Qed.

Lemma setResourceGroupStatus_last_kind_wins_witness :
  let st := setResourceGroupStatus emptyStatus [] (Some graphThenReadiness) in
  statusOf st GraphVerified = Some ConditionTrue /\
  statusOf st CustomResourceDefinitionSynced = Some ConditionTrue /\
  statusOf st ReconcilerReady = Some ConditionFalse.
Proof.
  apply (setResourceGroupStatus_last_kind_wins emptyStatus []
           graphThenReadiness ReadinessError).
  reflexivity.
Defined.

Lemma sameKinds_lastKind (e1 e2 : error) :
  sameKinds e1 e2 = true -> lastKind e1 = lastKind e2.
Proof.
  unfold sameKinds, lastKind. simpl.
  rewrite !andb_true_iff. intros (H1 & H2 & H3 & H4 & _).
  apply eqb_prop in H1, H2, H3, H4. now rewrite H1, H2, H3, H4.
Qed.

(** X5.  The Status of the three conditions and the State depend on the
    error only through the phase-error kinds its chain holds: two errors
    with the same kinds, such as an error and the same error inside a
    requeue marker, give the same Status values and State. *)
Theorem setResourceGroupStatus_status_by_kinds
        (prior : ResourceGroupStatus) (topologicalOrder : list string)
        (e1 e2 : error) :
  sameKinds e1 e2 = true ->
  let st1 := setResourceGroupStatus prior topologicalOrder (Some e1) in
  let st2 := setResourceGroupStatus prior topologicalOrder (Some e2) in
  State st1 = State st2 /\
  statusOf st1 GraphVerified = statusOf st2 GraphVerified /\
  statusOf st1 CustomResourceDefinitionSynced =
    statusOf st2 CustomResourceDefinitionSynced /\
  statusOf st1 ReconcilerReady = statusOf st2 ReconcilerReady.
Proof.
  intros H st1 st2. pose proof (sameKinds_lastKind e1 e2 H) as L.
  split.
  - unfold st1, st2. now rewrite !derived_state.
  - unfold statusOf, st1, st2. rewrite !derived_condition, L.
    now destruct (lastKind e2).
Qed.

Lemma setResourceGroupStatus_status_by_kinds_witness :
  let st1 := setResourceGroupStatus emptyStatus [] (Some schemaFailure) in
  let st2 := setResourceGroupStatus emptyStatus []
               (Some (errorWrap ptrRequeueNeeded "retry" schemaFailure)) in
  State st1 = State st2 /\
  statusOf st1 GraphVerified = statusOf st2 GraphVerified /\
  statusOf st1 CustomResourceDefinitionSynced =
    statusOf st2 CustomResourceDefinitionSynced /\
  statusOf st1 ReconcilerReady = statusOf st2 ReconcilerReady.
Proof.
  apply (setResourceGroupStatus_status_by_kinds emptyStatus [] schemaFailure
           (errorWrap ptrRequeueNeeded "retry" schemaFailure)).
  reflexivity.
Defined.

(** X6.  The three conditions, the State and the order that are derived
    do not depend on the status read before the pass: every pass writes
    them anew. *)
Theorem setResourceGroupStatus_prior_irrelevant
        (prior prior' : ResourceGroupStatus)
        (topologicalOrder : list string) (reconcileErr : option error) :
  let st := setResourceGroupStatus prior topologicalOrder reconcileErr in
  let st' := setResourceGroupStatus prior' topologicalOrder reconcileErr in
  State st = State st' /\
  TopoligicalOrder st = TopoligicalOrder st' /\
  Forall (fun t => GetCondition (Conditions st) t =
                   GetCondition (Conditions st') t)
         [ReconcilerReady; GraphVerified; CustomResourceDefinitionSynced].
Proof.
  cbv zeta. rewrite !derived_state, !derived_order.
  split; [reflexivity | split; [reflexivity|]].
  destruct reconcileErr as [e|]; repeat constructor;
    now rewrite ?derived_condition, ?baseline_condition.
Qed.

(** *** Finalizers *)

(** X7.  After a pass of [setManaged] whose patch, if any, is applied, a
    second pass sends no patch. *)
Theorem setManaged_settles (SymphonyDomainName : string)
        (finalizers : list string) :
  Finalizers.setManaged SymphonyDomainName
    (Finalizers.patched finalizers
       (Finalizers.setManaged SymphonyDomainName finalizers)) = None.
Proof.
  unfold Finalizers.setManaged. simpl.
  destruct finalizers as [|f [|g rest]]; reflexivity.
Qed.


End ControllerExtras.

(* ================================================================== *)
(** ** Further theorems: the parser *)
(* ================================================================== *)

Module ParserExtras.
Import GoStrings Parser Vocabulary ParserFacts.

Lemma append_assoc (a b c : string) : ((a ++ b) ++ c = a ++ (b ++ c))%string.
Proof. induction a as [|x a IH]; simpl; [reflexivity | now rewrite IH]. Qed.

Lemma append_empty_r (a : string) : (a ++ EmptyString = a)%string.
Proof. induction a as [|x a IH]; simpl; [reflexivity | now rewrite IH]. Qed.

(** *** A property of every field, from the string case up *)

Section FieldInduction.
Variable isOneShotExpression : string -> Outcome bool.
Variable extractExpressions : string -> Outcome (list string).

Abbreviation walk :=
  (Parser.parseResource isOneShotExpression extractExpressions).

(** [Q path f]: what is shown of a field [f] built at or below [path]. *)
Variable Q : string -> ExpressionField -> Prop.
Hypothesis Q_up : forall path step f, Q (path ++ step) f -> Q path f.
Hypothesis Q_leaf :
  forall field schema expectedType path fields,
    parseString isOneShotExpression extractExpressions
                field schema expectedType path = Ok fields ->
    Forall (Q path) fields.

Lemma Forall_Q_up path step fields :
  Forall (Q (path ++ step)) fields -> Forall (Q path) fields.
Proof. apply Forall_impl. intros f. apply Q_up. Qed.

Lemma rangeFields_yields path entries :
  Forall (fun kv => yields walk Q (snd kv)) entries ->
  forall schema acc fields after,
    Forall (Q path) acc ->
    rangeFields walk path entries schema acc = (Ok fields, after) ->
    Forall (Q path) fields.
Proof.
  induction 1 as [|[field value] rest Hv _ IH];
    intros schema acc fields after Hacc.
  - rewrite rangeFields_nil. now intros [= <- _].
  - rewrite rangeFields_cons.
    destruct (getFieldSchema schema field) as [[ref fieldSchema]|];
      try discriminate.
    destruct (walk value (Some fieldSchema) (path ++ "." ++ field))
      as [[found| |] child] eqn:W; try discriminate.
    apply IH. apply Forall_app. split; [assumption|].
    apply (Forall_Q_up path ("." ++ field)). exact (Hv _ _ _ _ W).
Qed.

Lemma rangeItems_yields path items :
  Forall (yields walk Q) items ->
  forall i itemSchema acc fields after,
    Forall (Q path) acc ->
    rangeItems walk path items i itemSchema acc = (Ok fields, after) ->
    Forall (Q path) fields.
Proof.
  induction 1 as [|item rest Hv _ IH];
    intros i itemSchema acc fields after Hacc.
  - rewrite rangeItems_nil. now intros [= <- _].
  - rewrite rangeItems_cons.
    destruct (walk item itemSchema (path ++ "[" ++ Itoa i ++ "]"))
      as [[found| |] child] eqn:W; try discriminate.
    apply IH. apply Forall_app. split; [assumption|].
    apply (Forall_Q_up path ("[" ++ Itoa i ++ "]")). exact (Hv _ _ _ _ W).
Qed.

Lemma parseResource_yields (resource : Value) : yields walk Q resource.
Proof.
  induction resource as [entries IH | items IH | s | | | | | | |]
    using Value_nested_ind;
    intros schema path fields after;
    (destruct schema as [schema|]; [|discriminate]); simpl;
    (destruct (resolveType schema) as [resolved| |]; [|discriminate..]);
    (destruct (index0 (Type_ resolved)) as [type0| |]; [|discriminate..]);
    try (intros [= H _]; rewrite (parseScalar_empty _ _ _ _ H);
         constructor).
  - match goal with
    | |- context [if ?b then _ else _] => destruct b; [discriminate|]
    end.
    destruct (rangeFields _ _ _ _ _) as [r node] eqn:R.
    intros [= -> _].
    eapply rangeFields_yields; [exact IH | constructor | exact R].
  - match goal with
    | |- context [if ?b then _ else _] => destruct b; [discriminate|]
    end.
    destruct (itemsSchema resolved) as [itemSchema|]; [|discriminate].
    destruct (rangeItems _ _ _ _ _ _) as [r node] eqn:R.
    intros [= -> _].
    eapply rangeItems_yields; [exact IH | constructor | exact R].
  - intros [= H _]. exact (Q_leaf _ _ _ _ _ H).
Qed.

End FieldInduction.

(** *** The claims of this part *)

(** X9.  A walk hands back unchanged every schema in which each node has
    exactly one type: the schema after [ParseResource] is the schema
    given, whether the walk succeeds or fails. *)
Theorem ParseResource_frame
        (isOneShotExpression : string -> Outcome bool)
        (extractExpressions : string -> Outcome (list string))
        (resource : list (string * Value)) (resourceSchema : Schema) :
  settled resourceSchema = true ->
  snd (Parser.ParseResource isOneShotExpression extractExpressions
         resource (Some resourceSchema)) = Some resourceSchema.
Proof.
  intros H.
  exact (parseResource_frame isOneShotExpression extractExpressions
           (VMap resource) resourceSchema EmptyString H).
Qed.

Lemma ParseResource_frame_witness :
  snd (Parser.ParseResource Classifier.isOneShotExpression
         Classifier.extractExpressions namedPod (Some settledPodSchema)) =
  Some settledPodSchema.
Proof.
  apply (ParseResource_frame Classifier.isOneShotExpression
           Classifier.extractExpressions namedPod settledPodSchema).
  reflexivity.
Defined.

(** X10.  Every field a walk returns lies at or below the path the walk
    was started at: its Path is that path followed by the steps taken. *)
Theorem parseResource_paths_below
        (isOneShotExpression : string -> Outcome bool)
        (extractExpressions : string -> Outcome (list string))
        (resource : Value) (schema : option Schema) (path : string)
        (fields : list ExpressionField) (after : option Schema) :
  Parser.parseResource isOneShotExpression extractExpressions
                       resource schema path = (Ok fields, after) ->
  Forall (below path) fields.
Proof.
  apply (parseResource_yields isOneShotExpression extractExpressions below).
  - intros p step f [suffix H]. exists (step ++ suffix)%string.
    now rewrite <- append_assoc.
  - intros field node expectedType p fs. unfold parseString.
    destruct (isOneShotExpression field) as [[|]| |]; try discriminate.
    + intros [= <-]. constructor; [|constructor].
      exists EmptyString. simpl. now rewrite append_empty_r.
    + destruct (negb (expectedType =? "string")
                && negb (expectedType =? "any")); try discriminate.
      destruct (extractExpressions field) as [expressions| |];
        try discriminate.
      destruct (Nat.ltb 0 (length expressions)); intros [= <-];
        constructor; [|constructor].
      exists EmptyString. simpl. now rewrite append_empty_r.
Qed.

Lemma parseResource_paths_below_witness :
  Forall (below "spec") serviceFieldsAtSpec.
Proof.
  apply (parseResource_paths_below Classifier.isOneShotExpression
           Classifier.extractExpressions (VMap Samples.service)
           (Some Samples.serviceSchema) "spec"
           serviceFieldsAtSpec (Some Samples.serviceSchemaAfter)).
  reflexivity.
Defined.

(** X11.  A field has one of two shapes: a one-shot field carries the
    schema node of its leaf; an embedded field carries none and has the
    expected type string or any. *)
Theorem parseResource_field_shape
        (isOneShotExpression : string -> Outcome bool)
        (extractExpressions : string -> Outcome (list string))
        (resource : Value) (schema : option Schema) (path : string)
        (fields : list ExpressionField) (after : option Schema) :
  Parser.parseResource isOneShotExpression extractExpressions
                       resource schema path = (Ok fields, after) ->
  Forall fieldShape fields.
Proof.
  apply (parseResource_yields isOneShotExpression extractExpressions
           (fun _ => fieldShape)).
  - trivial.
  - intros field node expectedType p fs. unfold parseString.
    destruct (isOneShotExpression field) as [[|]| |]; try discriminate.
    + intros [= <-]. constructor; [|constructor].
      left. split; [reflexivity | discriminate].
    + destruct (expectedType =? "string") eqn:Es; simpl.
      * apply String.eqb_eq in Es.
        destruct (extractExpressions field) as [expressions| |];
          try discriminate.
        destruct (Nat.ltb 0 (length expressions)); intros [= <-];
          constructor; [|constructor].
        right. simpl. auto.
      * destruct (expectedType =? "any") eqn:Ea; simpl; try discriminate.
        apply String.eqb_eq in Ea.
        destruct (extractExpressions field) as [expressions| |];
          try discriminate.
        destruct (Nat.ltb 0 (length expressions)); intros [= <-];
          constructor; [|constructor].
        right. simpl. auto.
Qed.

Lemma parseResource_field_shape_witness :
  Forall fieldShape serviceFieldsAtSpec.
Proof.
  apply (parseResource_field_shape Classifier.isOneShotExpression
           Classifier.extractExpressions (VMap Samples.service)
           (Some Samples.serviceSchema) "spec"
           serviceFieldsAtSpec (Some Samples.serviceSchemaAfter)).
  reflexivity.
Defined.

(** *** Documents without strings *)

Section NoStrings.
Variable isOneShotExpression : string -> Outcome bool.
Variable extractExpressions : string -> Outcome (list string).

Abbreviation walk' :=
  (Parser.parseResource isOneShotExpression extractExpressions).

Lemma rangeFields_silent path entries :
  Forall (fun kv => hasString (snd kv) = false ->
                    yields walk' (fun _ _ => False) (snd kv)) entries ->
  existsb (fun kv => hasString (snd kv)) entries = false ->
  forall schema fields after,
    rangeFields walk' path entries schema [] = (Ok fields, after) ->
    fields = [].
Proof.
  induction 1 as [|[field value] rest Hv _ IH]; intros Hs schema fields after.
  - rewrite rangeFields_nil. now intros [= <- _].
  - simpl in Hs. apply orb_false_iff in Hs. destruct Hs as [Hvalue Hrest].
    rewrite rangeFields_cons.
    destruct (getFieldSchema schema field) as [[ref fieldSchema]|];
      try discriminate.
    destruct (walk' value (Some fieldSchema) (path ++ "." ++ field))
      as [[found| |] child] eqn:W; try discriminate.
    pose proof (Hv Hvalue _ _ _ _ W) as F.
    destruct found as [|f found]; [|now inversion F].
    now apply IH.
Qed.

Lemma rangeItems_silent path items :
  Forall (fun v => hasString v = false ->
                   yields walk' (fun _ _ => False) v) items ->
  existsb hasString items = false ->
  forall i itemSchema fields after,
    rangeItems walk' path items i itemSchema [] = (Ok fields, after) ->
    fields = [].
Proof.
  induction 1 as [|item rest Hv _ IH];
    intros Hs i itemSchema fields after.
  - rewrite rangeItems_nil. now intros [= <- _].
  - simpl in Hs. apply orb_false_iff in Hs. destruct Hs as [Hitem Hrest].
    rewrite rangeItems_cons.
    destruct (walk' item itemSchema (path ++ "[" ++ Itoa i ++ "]"))
      as [[found| |] child] eqn:W; try discriminate.
    pose proof (Hv Hitem _ _ _ _ W) as F.
    destruct found as [|f found]; [|now inversion F].
    now apply IH.
Qed.

Lemma parseResource_silent (resource : Value) :
  hasString resource = false ->
  yields walk' (fun _ _ => False) resource.
Proof.
  induction resource as [entries IH | items IH | s | | | | | | |]
    using Value_nested_ind;
    intros Hs schema path fields after; try discriminate Hs;
    (destruct schema as [schema|]; [|discriminate]); simpl;
    (destruct (resolveType schema) as [resolved| |]; [|discriminate..]);
    (destruct (index0 (Type_ resolved)) as [type0| |]; [|discriminate..]);
    try (intros [= H _]; rewrite (parseScalar_empty _ _ _ _ H);
         constructor).
  - match goal with
    | |- context [if ?b then _ else _] => destruct b; [discriminate|]
    end.
    destruct (rangeFields _ _ _ _ _) as [r node] eqn:R.
    intros [= -> _].
    rewrite (rangeFields_silent _ _ IH Hs _ _ _ R). constructor.
  - match goal with
    | |- context [if ?b then _ else _] => destruct b; [discriminate|]
    end.
    destruct (itemsSchema resolved) as [itemSchema|]; [|discriminate].
    destruct (rangeItems _ _ _ _ _ _) as [r node] eqn:R.
    intros [= -> _].
    rewrite (rangeItems_silent _ _ IH Hs _ _ _ _ R). constructor.
Qed.

End NoStrings.

(** X12.  Fields come from string leaves only: the successful walk of a
    document without a string leaf returns no field, whatever the
    schema. *)
Theorem parseResource_no_string_no_field
        (isOneShotExpression : string -> Outcome bool)
        (extractExpressions : string -> Outcome (list string))
        (resource : Value) (schema : option Schema) (path : string)
        (fields : list ExpressionField) (after : option Schema) :
  hasString resource = false ->
  Parser.parseResource isOneShotExpression extractExpressions
                       resource schema path = (Ok fields, after) ->
  fields = [].
Proof.
  intros Hs H.
  pose proof (parseResource_silent _ _ resource Hs _ _ _ _ H) as F.
  destruct fields as [|f fields]; [reflexivity | now inversion F].
Qed.

Lemma parseResource_no_string_no_field_witness :
  replicasFields = [].
Proof.
  apply (parseResource_no_string_no_field Classifier.isOneShotExpression
           Classifier.extractExpressions replicasOnly (Some replicasSchema)
           EmptyString replicasFields (Some replicasSchema)).
  - reflexivity.
  - reflexivity.
Defined.

(** *** One-shot leaves with a clean body *)

Lemma TrimRight_closing (s : string) :
  TrimRight (s ++ "}") delimiters = TrimRight s delimiters.
Proof.
  induction s as [|c s IH]; [reflexivity|].
  cbn [append TrimRight]. now rewrite IH.
Qed.

Lemma TrimRight_lastClean (s : string) :
  lastClean s = true -> TrimRight s delimiters = s.
Proof.
  induction s as [|c s IH]; [discriminate|].
  destruct s as [|d s].
  - intros H. cbn [lastClean] in H. apply negb_true_iff in H.
    cbn [TrimRight]. now rewrite H.
  - intros H. change (lastClean (String d s) = true) in H.
    cbn [TrimRight]. cbn [TrimRight] in IH. now rewrite (IH H).
Qed.

Lemma lastClean_after (prefix body : string) :
  body <> EmptyString ->
  lastClean (prefix ++ body) = lastClean body.
Proof.
  intros H. induction prefix as [|c prefix IH]; [reflexivity|].
  cbn [append]. destruct (prefix ++ body)%string as [|d rest] eqn:E.
  - destruct prefix; [simpl in E; congruence | discriminate].
  - exact IH.
Qed.

Lemma Trim_clean_body (body : string) :
  cleanBody body = true ->
  Trim ("${" ++ body ++ "}") delimiters = body.
Proof.
  intros H. unfold Trim.
  replace ("${" ++ body ++ "}")%string with (("${" ++ body) ++ "}")%string
    by apply append_assoc.
  rewrite TrimRight_closing.
  destruct body as [|c body]; [reflexivity|].
  unfold cleanBody in H. apply andb_true_iff in H. destruct H as [Hc Hl].
  rewrite TrimRight_lastClean
    by (rewrite lastClean_after; [exact Hl | discriminate]).
  cbn. apply negb_true_iff in Hc. unfold delimiters in Hc.
  cbn in Hc. now rewrite Hc.
Qed.

(** X13.  A one-shot leaf ["${" ++ body ++ "}"] whose body is empty or
    neither begins nor ends with [$], [{] or [}] gives one field, at the
    path of the leaf, whose only expression is the body exactly. *)
Theorem parseResource_one_shot_clean_body
        (isOneShotExpression : string -> Outcome bool)
        (extractExpressions : string -> Outcome (list string))
        (body : string) (schema : Schema) (t path : string) :
  Type_ schema = [t] ->
  cleanBody body = true ->
  isOneShotExpression ("${" ++ body ++ "}") = Ok true ->
  exists f,
    fst (Parser.parseResource isOneShotExpression extractExpressions
           (VString ("${" ++ body ++ "}")) (Some schema) path) = Ok [f] /\
    Expressions f = [body] /\ Path f = path /\ OneShotCEL f = true /\
    ExpectedSchema f = Some schema.
Proof.
  intros HT Hb H1. cbn [Parser.parseResource].
  rewrite (resolveType_single _ _ HT), HT. cbn [index0 fst].
  unfold parseString. rewrite H1.
  eexists. split; [reflexivity|].
  cbn [Expressions Path OneShotCEL ExpectedSchema].
  change "${}" with delimiters. rewrite (Trim_clean_body body Hb).
  repeat split.
Qed.

Lemma parseResource_one_shot_clean_body_witness :
  exists f,
    fst (Package.parseResource (VString "${spec.name}")
           (Some Samples.stringSchema) ".name") = Ok [f] /\
    Expressions f = ["spec.name"] /\ Path f = ".name" /\
    OneShotCEL f = true /\ ExpectedSchema f = Some Samples.stringSchema.
Proof.
  apply (parseResource_one_shot_clean_body Classifier.isOneShotExpression
           Classifier.extractExpressions "spec.name" Samples.stringSchema
           "string" ".name"); reflexivity.
Defined.

(** X14.  A string leaf that is not a one-shot expression is rejected
    with "expected string type" under every type other than string and
    the wildcard, whether or not it holds an expression. *)
Theorem parseResource_literal_needs_string
        (isOneShotExpression : string -> Outcome bool)
        (extractExpressions : string -> Outcome (list string))
        (field : string) (schema : Schema) (t path : string) :
  Type_ schema = [t] ->
  isOneShotExpression field = Ok false ->
  (t =? "string") = false ->
  (t =? "any") = false ->
  (t =? EmptyString) && allowsAdditional schema = false ->
  Parser.parseResource isOneShotExpression extractExpressions
                       (VString field) (Some schema) path =
  (Err (ErrExpectedString path), Some schema).
Proof.
  intros HT H1 Hs Ha Hw. cbn [Parser.parseResource].
  rewrite (resolveType_single _ _ HT), HT. cbn [index0].
  rewrite Hw. unfold parseString. now rewrite H1, Hs, Ha.
Qed.

Lemma parseResource_literal_needs_string_witness :
  Package.parseResource (VString "three") (Some Samples.integerSchema)
                        ".replicas" =
  (Err (ErrExpectedString ".replicas"), Some Samples.integerSchema).
Proof.
  apply (parseResource_literal_needs_string Classifier.isOneShotExpression
           Classifier.extractExpressions "three" Samples.integerSchema
           "integer" ".replicas"); reflexivity.
Defined.

(** *** Unions *)

(** X15.  A node without a single type whose first alternative has no
    type makes the walk panic on [schema.OneOf[0].Type[0]], whatever the
    document. *)
Theorem parseResource_untyped_alternative_panics
        (isOneShotExpression : string -> Outcome bool)
        (extractExpressions : string -> Outcome (list string))
        (resource : Value) (schema first : Schema) (rest : list Schema)
        (path : string) :
  Nat.eqb (length (Type_ schema)) 1 = false ->
  OneOf schema = first :: rest ->
  Type_ first = [] ->
  Parser.parseResource isOneShotExpression extractExpressions
                       resource (Some schema) path = (Panic, Some schema).
Proof.
  intros HT HO HF.
  assert (resolveType schema = Panic) as R.
  { unfold resolveType. rewrite HT, HO. cbn. now rewrite HF. }
  destruct resource; cbn [Parser.parseResource]; now rewrite R.
Qed.

Lemma parseResource_untyped_alternative_panics_witness :
  Package.parseResource (VMap []) (Some untypedUnion) EmptyString =
  (Panic, Some untypedUnion).
Proof.
  apply (parseResource_untyped_alternative_panics
           Classifier.isOneShotExpression Classifier.extractExpressions
           (VMap []) untypedUnion emptySchema [Samples.stringSchema]);
    reflexivity.
Defined.

(** X16.  A node without a single type is walked as the same node with
    the first type of its first alternative: the other alternatives and
    types are never looked at. *)
Theorem parseResource_union_is_first_alternative
        (isOneShotExpression : string -> Outcome bool)
        (extractExpressions : string -> Outcome (list string))
        (resource : Value) (schema first : Schema) (rest : list Schema)
        (t : string) (ts : list string) (path : string) :
  Nat.eqb (length (Type_ schema)) 1 = false ->
  OneOf schema = first :: rest ->
  Type_ first = t :: ts ->
  Parser.parseResource isOneShotExpression extractExpressions
                       resource (Some schema) path =
  Parser.parseResource isOneShotExpression extractExpressions
                       resource (Some (setType schema [t])) path.
Proof.
  intros HT HO HF.
  assert (resolveType schema = Ok (setType schema [t])) as R.
  { unfold resolveType. rewrite HT, HO. cbn. now rewrite HF. }
  assert (resolveType (setType schema [t]) = Ok (setType schema [t])) as R'.
  { now apply (resolveType_single _ t). }
  destruct resource; cbn [Parser.parseResource]; now rewrite R, R'.
Qed.

Lemma parseResource_union_is_first_alternative_witness :
  Package.parseResource (VString "${spec.port}")
                        (Some Samples.stringOrInteger) ".port" =
  Package.parseResource (VString "${spec.port}")
                        (Some (setType Samples.stringOrInteger ["string"]))
                        ".port".
Proof.
  apply (parseResource_union_is_first_alternative
           Classifier.isOneShotExpression Classifier.extractExpressions
           (VString "${spec.port}") Samples.stringOrInteger
           Samples.stringSchema [Samples.integerSchema] "string" []);
    reflexivity.
Defined.

(** *** Maps *)

(** X17.  Under a schema that allows additional properties without a
    schema for them, a field that is no declared property is walked
    against an empty schema and fails the walk with "found schema type
    that is not a single type", whatever its value. *)
Theorem parseResource_untyped_additional_fails
        (isOneShotExpression : string -> Outcome bool)
        (extractExpressions : string -> Outcome (list string))
        (field : string) (value : Value) (rest : list (string * Value))
        (schema : Schema) (t path : string) :
  Type_ schema = [t] ->
  AdditionalProperties schema = Some (mkSchemaOrBool true None) ->
  lookup field (Properties schema) = None ->
  Parser.parseResource isOneShotExpression extractExpressions
                       (VMap ((field, value) :: rest)) (Some schema) path =
  (Err (ErrNotSingleType []), Some schema).
Proof.
  intros HT HA HL. cbn [Parser.parseResource].
  rewrite (resolveType_single _ _ HT), HT. cbn [index0].
  assert (allowsAdditional schema = true) as ->
    by (unfold allowsAdditional; now rewrite HA).
  rewrite andb_false_r. rewrite rangeFields_cons.
  unfold getFieldSchema. rewrite HL, HA. cbn [AllowsSchema Allows].
  assert (Parser.parseResource isOneShotExpression extractExpressions value
            (Some emptySchema) (path ++ "." ++ field) =
          (Err (ErrNotSingleType []), Some emptySchema)) as ->
    by (now destruct value).
  now rewrite writeField_fresh.
Qed.

Lemma parseResource_untyped_additional_fails_witness :
  Package.parseResource (VMap [("labels", VString "x"); ("name", VString "n")])
                        (Some openObject) EmptyString =
  (Err (ErrNotSingleType []), Some openObject).
Proof.
  apply (parseResource_untyped_additional_fails
           Classifier.isOneShotExpression Classifier.extractExpressions
           "labels" (VString "x") [("name", VString "n")] openObject
           "object" EmptyString); reflexivity.
Defined.

Section SettledMaps.
Variable isOneShotExpression : string -> Outcome bool.
Variable extractExpressions : string -> Outcome (list string).

Abbreviation walk2 :=
  (Parser.parseResource isOneShotExpression extractExpressions).

Lemma fieldResult_round schema path field value ref fieldSchema r after :
  getFieldSchema schema field = Some (ref, fieldSchema) ->
  walk2 value (Some fieldSchema) (path ++ "." ++ field) = (r, after) ->
  fieldResult walk2 schema path (field, value) = r.
Proof.
  intros G W. unfold fieldResult. cbn [fst snd]. now rewrite G, W.
Qed.

Lemma rangeFields_settled schema path :
  settled schema = true ->
  forall entries acc fields,
    fst (rangeFields walk2 path entries schema acc) = Ok fields <->
    exists ls,
      Forall2 (fun kv l => fieldResult walk2 schema path kv = Ok l)
              entries ls /\
      fields = (acc ++ concat ls)%list.
Proof.
  intros Hs. induction entries as [|[field value] rest IH]; intros acc fields.
  - rewrite rangeFields_nil. cbn [fst]. split.
    + intros [= <-]. exists []. split; [constructor|].
      cbn. now rewrite app_nil_r.
    + intros (ls & F & ->). inversion F. cbn. now rewrite app_nil_r.
  - rewrite rangeFields_cons.
    destruct (getFieldSchema schema field) as [[ref fieldSchema]|] eqn:G.
    + destruct (walk2 value (Some fieldSchema) (path ++ "." ++ field))
        as [r after] eqn:W.
      pose proof (fieldResult_round _ _ _ _ _ _ _ _ G W) as FR.
      assert (writeField schema field ref fieldSchema after = schema) as ->.
      { destruct (writeField_frame _ _ _ _ Hs G) as [[-> | Hf] Hw].
        - apply writeField_fresh.
        - pose proof (parseResource_frame isOneShotExpression
                        extractExpressions value fieldSchema
                        (path ++ "." ++ field) Hf) as K.
          rewrite W in K. cbn [snd] in K. now subst after. }
      destruct r as [found| |].
      * rewrite IH. split.
        -- intros (ls & F & ->). exists (found :: ls). split.
           ++ constructor; assumption.
           ++ cbn. now rewrite app_assoc.
        -- intros (ls & F & ->). inversion F as [|? l ? ls' Hl F']; subst.
           rewrite FR in Hl. injection Hl as <-.
           exists ls'. split; [assumption|]. cbn. now rewrite app_assoc.
      * cbn [fst]. split; [discriminate|].
        intros (ls & F & _). inversion F as [|? l ? ls' Hl F']; subst.
        rewrite FR in Hl. discriminate.
      * cbn [fst]. split; [discriminate|].
        intros (ls & F & _). inversion F as [|? l ? ls' Hl F']; subst.
        rewrite FR in Hl. discriminate.
    + cbn [fst]. split; [discriminate|].
      intros (ls & F & _). inversion F as [|? l ? ls' Hl F']; subst.
      unfold fieldResult in Hl. cbn [fst snd] in Hl. rewrite G in Hl.
      discriminate.
Qed.

Lemma parseResource_map_settled_iff entries schema path fields :
  settled schema = true ->
  fst (walk2 (VMap entries) (Some schema) path) = Ok fields <->
  acceptsMap schema = true /\
  exists ls,
    Forall2 (fun kv l => fieldResult walk2 schema path kv = Ok l)
            entries ls /\
    fields = concat ls.
Proof.
  intros Hs. destruct (settled_single _ Hs) as [t HT].
  cbn [Parser.parseResource].
  rewrite (resolveType_single _ _ HT), HT. cbn [index0].
  unfold acceptsMap. rewrite HT.
  assert (((if (t =? EmptyString) && allowsAdditional schema
            then "any" else t) =? "object") = (t =? "object")) as ->.
  { destruct (t =? EmptyString) eqn:E; [|reflexivity].
    apply String.eqb_eq in E. subst t.
    now destruct (allowsAdditional schema). }
  destruct (t =? "object"), (allowsAdditional schema); cbn [negb andb orb];
    try (destruct (rangeFields _ _ _ _ _) as [r node] eqn:R; cbn [fst];
         pose proof (rangeFields_settled schema path Hs entries [] fields)
           as K; rewrite R in K; cbn [fst app] in K; rewrite K; tauto).
  cbn [fst]. split; [discriminate | intros [? _]; discriminate].
Qed.

End SettledMaps.

(** X18.  Under a schema in which each node has one type, the walk of a
    map succeeds exactly when the map is let through and the walk of
    every entry against its field schema succeeds, and its fields are
    then those of the entries, one after the other in the order of the
    entries: no entry is skipped and no partial result is returned. *)
Theorem parseResource_map_all_or_nothing
        (isOneShotExpression : string -> Outcome bool)
        (extractExpressions : string -> Outcome (list string))
        (entries : list (string * Value)) (schema : Schema) (path : string)
        (fields : list ExpressionField) :
  settled schema = true ->
  fst (Parser.parseResource isOneShotExpression extractExpressions
         (VMap entries) (Some schema) path) = Ok fields <->
  acceptsMap schema = true /\
  exists ls,
    Forall2 (fun kv l =>
               fieldResult
                 (Parser.parseResource isOneShotExpression
                                       extractExpressions)
                 schema path kv = Ok l)
            entries ls /\
    fields = concat ls.
Proof. apply parseResource_map_settled_iff. Qed.

Lemma parseResource_map_all_or_nothing_witness :
  fst (Package.parseResource (VMap namedPod) (Some settledPodSchema)
         EmptyString) = Ok namedPodFields <->
  acceptsMap settledPodSchema = true /\
  exists ls,
    Forall2 (fun kv l =>
               fieldResult Package.parseResource settledPodSchema
                           EmptyString kv = Ok l)
            namedPod ls /\
    namedPodFields = concat ls.
Proof.
  apply (parseResource_map_all_or_nothing Classifier.isOneShotExpression
           Classifier.extractExpressions namedPod settledPodSchema
           EmptyString namedPodFields).
  reflexivity.
Defined.

Lemma concat_permuted {A : Type} (ls ls' : list (list A)) :
  Permutation ls ls' -> Permutation (concat ls) (concat ls').
Proof.
  induction 1 as [|l ls ls' _ IH|l l' ls|ls ls' ls'' _ IH1 _ IH2]; cbn.
  - constructor.
  - now apply Permutation_app_head.
  - rewrite !app_assoc. apply Permutation_app_tail, Permutation_app_comm.
  - now apply Permutation_trans with (concat ls').
Qed.

(** X19.  Under a schema in which each node has one type the order in
    which a map is ranged over does not matter: if the walk succeeds for
    one order of the entries it succeeds for every other, with the same
    fields in another order. *)
Theorem parseResource_map_order
        (isOneShotExpression : string -> Outcome bool)
        (extractExpressions : string -> Outcome (list string))
        (entries entries' : list (string * Value)) (schema : Schema)
        (path : string) (fields : list ExpressionField) :
  settled schema = true ->
  Permutation entries entries' ->
  fst (Parser.parseResource isOneShotExpression extractExpressions
         (VMap entries) (Some schema) path) = Ok fields ->
  exists fields',
    fst (Parser.parseResource isOneShotExpression extractExpressions
           (VMap entries') (Some schema) path) = Ok fields' /\
    Permutation fields fields'.
Proof.
  intros Hs P H.
  apply (parseResource_map_settled_iff _ _ _ _ _ _ Hs) in H.
  destruct H as (Hacc & ls & F & ->).
  destruct (Permutation_Forall2 P F) as (ls' & Pls & F').
  exists (concat ls'). split.
  - apply (parseResource_map_settled_iff _ _ _ _ _ _ Hs).
    split; [assumption|]. now exists ls'.
  - now apply concat_permuted.
Qed.

Lemma parseResource_map_order_witness :
  exists fields',
    fst (Package.parseResource (VMap namedPodSwapped)
           (Some settledPodSchema) EmptyString) = Ok fields' /\
    Permutation namedPodFields fields'.
Proof.
  apply (parseResource_map_order Classifier.isOneShotExpression
           Classifier.extractExpressions namedPod namedPodSwapped
           settledPodSchema EmptyString namedPodFields).
  - reflexivity.
  - apply perm_swap.
  - reflexivity.
Defined.

(** *** Arrays *)

Section SettledArrays.
Variable isOneShotExpression : string -> Outcome bool.
Variable extractExpressions : string -> Outcome (list string).

Abbreviation walk3 :=
  (Parser.parseResource isOneShotExpression extractExpressions).

Lemma rangeItems_settled itemSchema path :
  settled itemSchema = true ->
  forall items i acc fields,
    fst (rangeItems walk3 path items i (Some itemSchema) acc) = Ok fields <->
    exists ls,
      Forall2 (fun ix l => itemResult walk3 itemSchema path ix = Ok l)
              (indexed i items) ls /\
      fields = (acc ++ concat ls)%list.
Proof.
  intros Hs. induction items as [|item rest IH]; intros i acc fields.
  - rewrite rangeItems_nil. cbn [fst]. split.
    + intros [= <-]. exists []. split; [constructor|].
      cbn. now rewrite app_nil_r.
    + intros (ls & F & ->). inversion F. cbn. now rewrite app_nil_r.
  - rewrite rangeItems_cons. unfold indexed. cbn [length seq combine].
    fold (indexed (S i) rest).
    pose proof (parseResource_frame isOneShotExpression extractExpressions
                  item itemSchema (path ++ "[" ++ Itoa i ++ "]") Hs) as K.
    assert (itemResult walk3 itemSchema path (i, item) =
            fst (walk3 item (Some itemSchema)
                       (path ++ "[" ++ Itoa i ++ "]"))) as FR
      by reflexivity.
    destruct (walk3 item (Some itemSchema) (path ++ "[" ++ Itoa i ++ "]"))
      as [r after]. cbn [fst snd] in *. subst after.
    destruct r as [found| |].
    + rewrite IH. split.
      * intros (ls & F & ->). exists (found :: ls). split.
        -- constructor; assumption.
        -- cbn. now rewrite app_assoc.
      * intros (ls & F & ->). inversion F as [|? l ? ls' Hl F']; subst.
        rewrite FR in Hl. injection Hl as <-.
        exists ls'. split; [assumption|]. cbn. now rewrite app_assoc.
    + cbn [fst]. split; [discriminate|].
      intros (ls & F & _). inversion F as [|? l ? ls' Hl F']; subst.
      rewrite FR in Hl. discriminate.
    + cbn [fst]. split; [discriminate|].
      intros (ls & F & _). inversion F as [|? l ? ls' Hl F']; subst.
      rewrite FR in Hl. discriminate.
Qed.

End SettledArrays.

(** X20.  Under an array schema whose item schema has one type at each
    node, the walk of a slice succeeds exactly when the walk of every
    item against the item schema, at the path of the slice followed by
    the index of the item in brackets, succeeds; its fields are then
    those of the items in the order of the indexes. *)
Theorem parseResource_array_all_or_nothing
        (isOneShotExpression : string -> Outcome bool)
        (extractExpressions : string -> Outcome (list string))
        (items : list Value) (schema itemSchema : Schema) (path : string)
        (fields : list ExpressionField) :
  Type_ schema = ["array"] ->
  itemsSchema schema = Some itemSchema ->
  settled itemSchema = true ->
  fst (Parser.parseResource isOneShotExpression extractExpressions
         (VSlice items) (Some schema) path) = Ok fields <->
  exists ls,
    Forall2 (fun ix l =>
               itemResult
                 (Parser.parseResource isOneShotExpression
                                       extractExpressions)
                 itemSchema path ix = Ok l)
            (indexed 0 items) ls /\
    fields = concat ls.
Proof.
  intros HT HI Hs.
  rewrite (parseResource_array_items _ _ items schema itemSchema path HT HI).
  cbn [fst].
  exact (rangeItems_settled _ _ itemSchema path Hs items 0 [] fields).
Qed.

Lemma parseResource_array_all_or_nothing_witness :
  fst (Package.parseResource (VSlice [Samples.podItem; Samples.podItem])
         (Some Samples.itemsArray) "containers") = Ok twoPodsFields <->
  exists ls,
    Forall2 (fun ix l =>
               itemResult Package.parseResource
                          (Samples.objectOf [("name", Samples.stringSchema)])
                          "containers" ix = Ok l)
            (indexed 0 [Samples.podItem; Samples.podItem]) ls /\
    twoPodsFields = concat ls.
Proof.
  apply (parseResource_array_all_or_nothing Classifier.isOneShotExpression
           Classifier.extractExpressions
           [Samples.podItem; Samples.podItem] Samples.itemsArray
           (Samples.objectOf [("name", Samples.stringSchema)])
           "containers" twoPodsFields); reflexivity.
Defined.

(** The two items give their fields at the indexes 0 and 1. *)
Example twoPodsFields_paths :
  map Path twoPodsFields = ["containers[0].name"; "containers[1].name"].
Proof. reflexivity. Qed.

(** *** What a walk keeps of the node it is given *)

Lemma store_keys field v (m : list (string * Schema)) :
  map fst (store field v m) = map fst m.
Proof.
  induction m as [|[k v0] rest IH]; [reflexivity|].
  cbn [store]. destruct (String.eqb k field); cbn [map fst];
    [reflexivity | now rewrite IH].
Qed.

Lemma sameTyped_refl (s : Schema) : sameTyped s s.
Proof. repeat split; auto. Qed.

Lemma sameTyped_trans (s1 s2 s3 : Schema) :
  sameTyped s1 s2 -> sameTyped s2 s3 -> sameTyped s1 s3.
Proof.
  intros (T1 & O1 & P1 & A1 & I1) (T2 & O2 & P2 & A2 & I2).
  repeat split; try congruence; tauto.
Qed.

Lemma sameTyped_writeField schema field ref before after :
  sameTyped schema (writeField schema field ref before after).
Proof.
  unfold writeField. destruct after as [after|]; [|apply sameTyped_refl].
  destruct ref; [| |apply sameTyped_refl].
  - repeat split; cbn; auto using store_keys.
  - unfold setAdditionalSchema, sameTyped, sameFrame, allowsAdditional.
    cbn. destruct (AdditionalProperties schema); repeat split; auto.
Qed.

Lemma sameTyped_writeItems schema after :
  sameTyped schema (writeItems schema ItemsPointer after).
Proof.
  unfold writeItems. destruct after as [after|]; [|apply sameTyped_refl].
  unfold setItemsSchema, sameTyped, sameFrame. cbn.
  destruct (Items schema); repeat split; auto; discriminate.
Qed.

Lemma rangeFields_sameTyped (walk : Walk) path entries :
  forall schema acc,
    sameTyped schema (snd (rangeFields walk path entries schema acc)).
Proof.
  induction entries as [|[field value] rest IH]; intros schema acc.
  - apply sameTyped_refl.
  - rewrite rangeFields_cons.
    destruct (getFieldSchema schema field) as [[ref fieldSchema]|];
      [|apply sameTyped_refl].
    destruct (walk value (Some fieldSchema) (path ++ "." ++ field))
      as [r after].
    pose proof (sameTyped_writeField schema field ref fieldSchema after)
      as W.
    destruct r; cbn [snd]; [|exact W..].
    exact (sameTyped_trans _ _ _ W (IH _ _)).
Qed.

Lemma resolveType_kept (schema resolved : Schema) :
  resolveType schema = Ok resolved ->
  sameFrame schema resolved /\ exists t, Type_ resolved = [t].
Proof.
  unfold resolveType.
  destruct (Nat.eqb (length (Type_ schema)) 1) eqn:L; cbn [negb].
  - intros [= <-]. split; [apply sameTyped_refl|].
    apply Nat.eqb_eq in L.
    destruct (Type_ schema) as [|t [|? ?]]; try discriminate. now exists t.
  - destruct (Nat.ltb 0 (length (OneOf schema))); [|discriminate].
    destruct (index0 (OneOf schema)) as [first| |]; try discriminate.
    destruct (index0 (Type_ first)) as [t| |]; try discriminate.
    intros [= <-]. split; [|now exists t].
    repeat split; auto.
Qed.

(** X21.  A walk leaves a schema node in place and keeps its
    alternatives, the names of its properties, whether it allows
    additional properties and whether it has an [Items]; after a
    successful walk the node has exactly one type. *)
Theorem parseResource_keeps_frame
        (isOneShotExpression : string -> Outcome bool)
        (extractExpressions : string -> Outcome (list string))
        (resource : Value) (schema : Schema) (path : string) :
  exists schema',
    snd (Parser.parseResource isOneShotExpression extractExpressions
           resource (Some schema) path) = Some schema' /\
    sameFrame schema schema' /\
    match fst (Parser.parseResource isOneShotExpression extractExpressions
                 resource (Some schema) path) with
    | Ok _ => exists t, Type_ schema' = [t]
    | _ => True
    end.
Proof.
  assert (forall s, sameFrame s s) as refl by (intros s; apply sameTyped_refl).
  assert (forall s1 s2 s3,
             sameFrame s1 s2 -> sameTyped s2 s3 -> sameFrame s1 s3) as step.
  { intros s1 s2 s3 (O1 & P1 & A1 & I1) (_ & O2 & P2 & A2 & I2).
    repeat split; try congruence; tauto. }
  destruct (resolveType schema) as [resolved| |] eqn:R.
  - destruct (resolveType_kept _ _ R) as (F & t & HT).
    destruct resource; cbn [Parser.parseResource]; rewrite R, HT;
      cbn [index0];
      try (exists resolved; cbn [fst snd];
           split; [reflexivity | split; [exact F|]];
           match goal with
           | |- match ?o with _ => _ end => destruct o; eauto
           end).
    + match goal with
      | |- context [if ?b then _ else _] => destruct b
      end.
      * exists resolved. cbn [fst snd]. auto.
      * pose proof (rangeFields_sameTyped
                      (Parser.parseResource isOneShotExpression
                                            extractExpressions)
                      path entries resolved []) as K.
        destruct (rangeFields _ _ _ _ _) as [r node]. cbn [fst snd] in *.
        exists node. split; [reflexivity|].
        split; [now apply (step _ resolved)|].
        destruct r; trivial. exists t. destruct K as [-> _]. exact HT.
    + match goal with
      | |- context [if ?b then _ else _] => destruct b
      end.
      * exists resolved. cbn [fst snd]. auto.
      * destruct (itemsSchema resolved) as [itemSchema|].
        -- destruct (rangeItems _ _ _ _ _ _) as [r after]. cbn [fst snd].
           pose proof (sameTyped_writeItems resolved after) as K.
           eexists. split; [reflexivity|].
           split; [now apply (step _ resolved)|].
           destruct r; trivial. exists t. destruct K as [-> _]. exact HT.
        -- exists resolved. cbn [fst snd]. auto.
  - exists schema.
    destruct resource; cbn [Parser.parseResource]; rewrite R; cbn; auto.
  - exists schema.
    destruct resource; cbn [Parser.parseResource]; rewrite R; cbn; auto.
Qed.

End ParserExtras.
